(** * Shipping Errors Dashboard (asst4.py): a shallow embedding

    The script loads [shipments.csv] into a pandas DataFrame, derives three
    columns, warns about destinations without coordinates, filters by the
    driver chosen in the sidebar and hands aggregate tables to the charts.

    Conventions of the embedding
    - a DataFrame is the list of its rows, a row is a record of the columns
      the script reads or writes;
    - a cell of a text column is [option string]: [None] is the NaN that
      [read_csv] puts in place of an empty field; the id columns, the
      destination and the status are text columns (dtype object); a
      timestamp cell is [option Z] (nanoseconds since the epoch, [None] is
      NaT);
    - a float64 is the rational it denotes; every float64 operation
      computes the exact result and rounds it to the nearest double, ties
      to even ([F64.fl]), as IEEE 754 prescribes; the exponent range is not
      modelled (no value of the script leaves it);
    - DataFrames that the script copies, slices or assigns columns on live in
      a store and are named by their location; tables that are only read
      are plain values. *)

From Stdlib Require Import ZArith QArith Qround Qabs Qpower Lqa.
From stdpp Require Import base list sorting strings gmap pretty.

(** ** binary64 arithmetic *)

Module F64.

(** Round to the nearest integer, ties to the even one. *)
Definition rne (q : Q) : Z :=
  let f := Qfloor q in
  match (q - inject_Z f ?= 1 # 2)%Q with
  | Lt => f
  | Gt => (f + 1)%Z
  | Eq => if Z.even f then f else (f + 1)%Z
  end.

(** For [0 < x]: the [e] with [2^e <= x < 2^(e+1)]. *)
Definition ilog2 (x : Q) : Z :=
  let c := (Z.log2 (Qnum x) - Z.log2 (Zpos (Qden x)))%Z in
  if Qle_bool (2 ^ c) x then c else (c - 1)%Z.

(** The exponent of the last of the 53 bits of the significand. *)
Definition expo (x : Q) : Z := (ilog2 (Qabs (Qred x)) - 52)%Z.

(** The double nearest to [x], ties to even. *)
Definition fl (x : Q) : Q :=
  match Qnum (Qred x) with
  | Z0 => 0%Q
  | _ => Qred (inject_Z (rne (x / 2 ^ expo x)) * 2 ^ expo x)
  end.

(** The unit roundoff. *)
Definition eps : Q := 2 ^ (-53).

(** int64 to float64. *)
Definition of_Z (z : Z) : Q := fl (inject_Z z).
Definition of_nat (n : nat) : Q := of_Z (Z.of_nat n).

Definition add (a b : Q) : Q := fl (a + b).
Definition mul (a b : Q) : Q := fl (a * b).
Definition div (a b : Q) : Q := fl (a / b).

(** The sum of an array, added up from the left. *)
Definition sum (xs : list Q) : Q := fold_left add xs 0%Q.

End F64.

(** ** pandas primitives *)

Module Pandas.

(** [Series.notnull] on one cell. *)
Definition notnull {A} (c : option A) : bool :=
  match c with Some _ => true | None => false end.

(** [Series.isna] on one cell. *)
Definition isna {A} (c : option A) : bool := negb (notnull c).

(** [column == value] for a scalar text value: NaN equals nothing. *)
Definition eq_scalar (c : option string) (v : string) : bool :=
  bool_decide (c = Some v).

(** [column == value] where the value itself may be NaN. *)
Definition eq_cell (c v : option string) : bool :=
  match c, v with
  | Some a, Some b => bool_decide (a = b)
  | _, _ => false
  end.

(** [Series.isin(values)]. *)
Definition isin (c : option string) (values : list string) : bool :=
  match c with
  | Some a => bool_decide (a ∈ values)
  | None => false
  end.

(** [df[mask]]: the rows whose mask is true, in order. *)
Definition select {R} (mask : R → bool) (df : list R) : list R :=
  filter (λ r, mask r = true) df.

(** [Series.unique]: distinct values in order of first appearance; NaN is
    a value like any other here. *)
Fixpoint unique `{EqDecision A} (l : list A) : list A :=
  match l with
  | [] => []
  | x :: l' => x :: filter (λ y, y ≠ x) (unique l')
  end.

(** Order of group keys: [groupby] sorts them; the values of a text column
    compare as Python compares str, code point by code point. *)
Definition str_le (a b : string) : Prop := String.leb a b = true.
Definition pair_le (a b : string * string) : Prop :=
  if decide (a.1 = b.1) then str_le a.2 b.2 else str_le a.1 b.1.
Definition date_le (a b : string + Z) : Prop :=
  match a, b with
  | inl s, inl t => str_le s t
  | inr x, inr y => (x ≤ y)%Z
  | inl _, inr _ => True
  | inr _, inl _ => False
  end.

Global Instance str_le_dec a b : Decision (str_le a b).
Proof. unfold str_le. apply _. Defined.
Global Instance pair_le_dec a b : Decision (pair_le a b).
Proof. unfold pair_le. destruct (decide (a.1 = b.1)); apply _. Defined.
Global Instance date_le_dec a b : Decision (date_le a b).
Proof. destruct a, b; simpl; apply _. Defined.

Section groupby.
Context {R K : Type} `{EqDecision K}.
Context (le : relation K) `{∀ a b, Decision (le a b)}.
Context (key : R → option K).

(** The keys of [df.groupby(key)]: rows whose key is NaN are dropped
    (dropna=True), the remaining distinct keys are sorted. *)
Definition group_keys (df : list R) : list K :=
  merge_sort le (unique (omap key df)).

(** The rows of one group. *)
Definition group_rows (df : list R) (k : K) : list R :=
  filter (λ r, key r = Some k) df.

(** [df.groupby(key)]: each key with its rows. *)
Definition groupby (df : list R) : list (K * list R) :=
  (λ k, (k, group_rows df k)) <$> group_keys df.
End groupby.

(** The aggregation ["first"]: first non-null value of the column in the
    group, NaN when there is none. *)
Fixpoint first {A} (col : list (option A)) : option A :=
  match col with
  | [] => None
  | Some a :: _ => Some a
  | None :: col' => first col'
  end.

(** [pd.merge(left, right, on=key)] (inner): every left row with every
    right row of the same key, in the order of the left table. *)
Definition merge_inner {L R' O} (lkey : L → string) (rkey : R' → string)
    (combine : L → R' → O) (left : list L) (right : list R') : list O :=
  l ← left; combine l <$> filter (λ r, rkey r = lkey l) right.

(** [pd.merge(left, right, on=key, how="left")]: a left row without a
    match is kept once, with NaN in the columns of the right table. *)
Definition merge_left {L R' O} (lkey : L → string) (rkey : R' → string)
    (combine : L → option R' → O) (left : list L) (right : list R') : list O :=
  l ← left;
  match filter (λ r, rkey r = lkey l) right with
  | [] => [combine l None]
  | ms => combine l ∘ Some <$> ms
  end.

(** numpy's [rint] on a float64: the nearest integer, ties to even. *)
Definition rint (x : Q) : Z := F64.rne x.

(** [Series.round(decimals)] is numpy's: multiply by [10 ** decimals],
    [rint], divide by [10 ** decimals], each in float64. *)
Definition round (decimals : nat) (x : Q) : Q :=
  let scale := inject_Z (10 ^ Z.of_nat decimals) in
  F64.div (inject_Z (rint (F64.mul x scale))) scale.

(** [Series.mean]: NaN entries are skipped; the mean of nothing is NaN;
    otherwise the float64 sum divided by the count. *)
Definition mean (col : list (option Q)) : option Q :=
  match omap id col with
  | [] => None
  | xs => Some (F64.div (F64.sum xs) (F64.of_nat (length xs)))
  end.

End Pandas.

(** ** Python string helpers *)

Module Py.

Inductive exn := TypeError | KeyError | AttributeError.

(** [sep.join(xs)] on strings. *)
Fixpoint join_str (sep : string) (xs : list string) : string :=
  match xs with
  | [] => ""
  | [x] => x
  | x :: xs' => x +:+ sep +:+ join_str sep xs'
  end.

(** [sep.join(xs)] on the entries of an object array: an entry that is
    not a str (here: the float NaN) raises TypeError. *)
Definition join (sep : string) (xs : list (option string)) : exn + string :=
  match mapM id xs with
  | Some ss => inr (join_str sep ss)
  | None => inl TypeError
  end.

(** [f"{x:.1f}"] on a float64: the exact value of the double, rounded to
    one decimal, ties to even; a negative value keeps its sign even when it
    rounds to zero. *)
Definition format_1f (x : Q) : string :=
  let tenths := Pandas.rint (Qabs x * 10) in
  (match (x ?= 0)%Q with Lt => "-" | _ => "" end) +:+
  pretty (tenths `div` 10)%Z +:+ "." +:+ pretty (tenths `mod` 10)%Z.

End Py.

(** ** The data model *)

(** One row of [shipments_df], with the columns the script touches.
    [delivery_date] is text when the CSV brings the column ([inl]) and a
    day number when the script derives it ([inr]). *)
Record Shipment := mkShipment {
  driver_id : option string;
  vehicle_id : option string;
  route_id : option string;
  destination : option string;
  status : option string;
  pickup_time : option Z;
  delivery_time : option Z;
  delivery_date : option (string + Z);
  dest_lat : option Q;
  dest_lon : option Q
}.

Definition set_delivery_date (v : option (string + Z)) (s : Shipment) : Shipment :=
  mkShipment (driver_id s) (vehicle_id s) (route_id s) (destination s) (status s)
    (pickup_time s) (delivery_time s) v (dest_lat s) (dest_lon s).
Definition set_dest_lat (v : option Q) (s : Shipment) : Shipment :=
  mkShipment (driver_id s) (vehicle_id s) (route_id s) (destination s) (status s)
    (pickup_time s) (delivery_time s) (delivery_date s) v (dest_lon s).
Definition set_dest_lon (v : option Q) (s : Shipment) : Shipment :=
  mkShipment (driver_id s) (vehicle_id s) (route_id s) (destination s) (status s)
    (pickup_time s) (delivery_time s) (delivery_date s) (dest_lat s) v.

(** The three columns offered by the "Compare Missing/Damaged By" box. *)
Inductive column_name := Cdriver_id | Cvehicle_id | Croute_id.

Definition column (c : column_name) : Shipment → option string :=
  match c with
  | Cdriver_id => driver_id
  | Cvehicle_id => vehicle_id
  | Croute_id => route_id
  end.

(** [total_by_group]. *)
Record TotalRow := mkTotalRow { tb_key : string; tb_total : nat }.
(** [incident_by_group]. *)
Record IncidentRow := mkIncidentRow { ib_key : string; ib_status : string; ib_count : nat }.
(** [merged] of the bar chart, before and after the [percent] column. *)
Record MergedRow := mkMergedRow {
  m_key : string; m_status : string; m_count : nat; m_total : nat }.
Record BarRow := mkBarRow {
  b_key : string; b_status : string; b_count : nat; b_total : nat; b_percent : Q }.
(** [trend_data]. *)
Record TrendRow := mkTrendRow { tr_delivery_date : string + Z; tr_count : nat }.
(** [total_shipments] and [status_shipments] of the map. *)
Record DestTotal := mkDestTotal {
  dt_destination : string; dt_total : nat; dt_lat : option Q; dt_lon : option Q }.
Record DestIncident := mkDestIncident { di_destination : string; di_incident : nat }.
(** [merged] of the map, before and after the [percent_incident] column;
    [incident] comes from a left merge and may be NaN. *)
Record MapMerged := mkMapMerged {
  mm_destination : string; mm_total : nat; mm_lat : option Q; mm_lon : option Q;
  mm_incident : option nat }.
Record MapRow := mkMapRow {
  destination_of : string; total : nat; lat : option Q; lon : option Q;
  incident : option nat; percent_incident : option Q }.

Definition Qnat (n : nat) : Q := inject_Z (Z.of_nat n).

(** [(count / total * 100).round(2)] on one row (lines 73 and 102): both
    columns become float64, then one division, one multiplication and the
    rounding. *)
Definition percent (count total : nat) : Q :=
  Pandas.round 2 (F64.mul (F64.div (F64.of_nat count) (F64.of_nat total)) 100).

(** ** Enrichment (lines 11-24) *)

(** [city_coords]. *)
Definition city_coords : gmap string (gmap string Q) :=
  {[ "New York" := {[ "lat" := 40.7128%Q; "lon" := (-74.0060)%Q ]};
     "Los Angeles" := {[ "lat" := 34.0522%Q; "lon" := (-118.2437)%Q ]};
     "Houston" := {[ "lat" := 29.7604%Q; "lon" := (-95.3698)%Q ]};
     "Phoenix" := {[ "lat" := 33.4484%Q; "lon" := (-112.0740)%Q ]};
     "Chicago" := {[ "lat" := 41.8781%Q; "lon" := (-87.6298)%Q ]} ]}.

(** [lambda x: city_coords.get(x, {}).get(field)]; a NaN destination is
    no key of the dictionary. *)
Definition coord (field : string) (x : option string) : option Q :=
  default ∅ (x ≫= (city_coords !!.)) !! field.

Definition ns_per_day : Z := 86400 * 1000000000.

(** [Series.dt.date] on one cell. *)
Definition dt_date (t : option Z) : option (string + Z) :=
  (λ ns, inr (ns `div` ns_per_day)%Z) <$> t.

Definition add_delivery_date (rows : list Shipment) : list Shipment :=
  (λ s, set_delivery_date (dt_date (delivery_time s)) s) <$> rows.
Definition add_dest_lat (rows : list Shipment) : list Shipment :=
  (λ s, set_dest_lat (coord "lat" (destination s)) s) <$> rows.
Definition add_dest_lon (rows : list Shipment) : list Shipment :=
  (λ s, set_dest_lon (coord "lon" (destination s)) s) <$> rows.

(** The rows of [shipments_df] once the derived columns are in place. *)
Definition enriched (has_delivery_date : bool) (rows : list Shipment) : list Shipment :=
  add_dest_lon (add_dest_lat
    (if has_delivery_date then rows else add_delivery_date rows)).

(** [missing_coords] (line 27). *)
Definition missing_coords (shipments_df : list Shipment) : list (option string) :=
  Pandas.unique (destination <$> Pandas.select (λ s, Pandas.isna (dest_lat s)) shipments_df).

(** ** Filter and KPI metrics (lines 38-52) *)

(** [filtered] after lines 38-40. *)
Definition filtered_rows (selected_driver : option string) (shipments_df : list Shipment)
    : list Shipment :=
  if bool_decide (selected_driver ≠ Some "All")
  then Pandas.select (λ s, Pandas.eq_cell (driver_id s) selected_driver) shipments_df
  else shipments_df.

Definition with_status (st : string) (df : list Shipment) : list Shipment :=
  Pandas.select (λ s, Pandas.eq_scalar (status s) st) df.

Definition total_missing (filtered : list Shipment) : nat :=
  length (with_status "Missing" filtered).
Definition damaged_count (filtered : list Shipment) : nat :=
  length (with_status "Damaged" filtered).

(** [delivery_time - pickup_time] on one row: NaT on either side gives NaT. *)
Definition transit_time (s : Shipment) : option Z :=
  d ← delivery_time s; p ← pickup_time s; Some (d - p)%Z.

(** [Series.dt.total_seconds] on one cell: the int64 nanoseconds divided
    by [10 ** 9] in float64. *)
Definition total_seconds (td : option Z) : option Q :=
  (λ ns, F64.div (F64.of_Z ns) 1000000000) <$> td.

Definition avg_transit_text (filtered : list Shipment) : string :=
  let missing_shipments := with_status "Missing" filtered in
  if negb (bool_decide (missing_shipments = []))
     && forallb (λ s, Pandas.notnull (pickup_time s)) missing_shipments
     && forallb (λ s, Pandas.notnull (delivery_time s)) missing_shipments
  then
    let transit_times := transit_time <$> missing_shipments in
    match Pandas.mean (total_seconds <$> transit_times) with
    | Some m =>
        let avg_transit_days := F64.div m 86400 in
        Py.format_1f avg_transit_days +:+ " days"
    | None => "nan days"
    end
  else "N/A".

(** ** Grouped incident percentages (lines 66-73) *)

Definition total_by_group (breakdown_type : column_name) (filtered : list Shipment)
    : list TotalRow :=
  (λ g, mkTotalRow g.1 (length g.2))
    <$> Pandas.groupby Pandas.str_le (column breakdown_type) filtered.

(** [filtered[filtered["status"].isin(["Missing", "Damaged"])]]. *)
Definition incidents_only (filtered : list Shipment) : list Shipment :=
  Pandas.select (λ s, Pandas.isin (status s) ["Missing"; "Damaged"]) filtered.

(** The key of [groupby([breakdown_type, "status"])]: NaN in either column
    drops the row. *)
Definition incident_key (breakdown_type : column_name) (s : Shipment)
    : option (string * string) :=
  k ← column breakdown_type s; st ← status s; Some (k, st).

Definition incident_by_group (breakdown_type : column_name) (filtered : list Shipment)
    : list IncidentRow :=
  (λ g, mkIncidentRow g.1.1 g.1.2 (length g.2))
    <$> Pandas.groupby Pandas.pair_le (incident_key breakdown_type)
          (incidents_only filtered).

(** Line 72. *)
Definition merge_groups (incidents : list IncidentRow) (totals : list TotalRow)
    : list MergedRow :=
  Pandas.merge_inner ib_key tb_key
    (λ i t, mkMergedRow (ib_key i) (ib_status i) (ib_count i) (tb_total t))
    incidents totals.

(** Line 73, on one row. *)
Definition with_percent (m : MergedRow) : BarRow :=
  mkBarRow (m_key m) (m_status m) (m_count m) (m_total m)
    (percent (m_count m) (m_total m)).

(** [merged] as the bar chart receives it. *)
Definition merged (breakdown_type : column_name) (filtered : list Shipment) : list BarRow :=
  with_percent <$> merge_groups (incident_by_group breakdown_type filtered)
                                (total_by_group breakdown_type filtered).

(** ** Missing shipments over time (line 83) *)

Definition trend_data (filtered : list Shipment) : list TrendRow :=
  (λ g, mkTrendRow g.1 (length g.2))
    <$> Pandas.groupby Pandas.date_le delivery_date (with_status "Missing" filtered).

(** ** The map table (lines 88-102) *)

Definition total_shipments (filtered_df : list Shipment) : list DestTotal :=
  (λ g, mkDestTotal g.1 (length g.2)
          (Pandas.first (dest_lat <$> g.2)) (Pandas.first (dest_lon <$> g.2)))
    <$> Pandas.groupby Pandas.str_le destination filtered_df.

Definition status_shipments (filtered_df : list Shipment) (status_type : string)
    : list DestIncident :=
  (λ g, mkDestIncident g.1 (length g.2))
    <$> Pandas.groupby Pandas.str_le destination (with_status status_type filtered_df).

(** Line 100. *)
Definition merge_destinations (totals : list DestTotal) (incidents : list DestIncident)
    : list MapMerged :=
  Pandas.merge_left dt_destination di_destination
    (λ t i, mkMapMerged (dt_destination t) (dt_total t) (dt_lat t) (dt_lon t)
              (di_incident <$> i))
    totals incidents.

(** Line 101, on one row: [fillna(0)]. *)
Definition fill_incident (m : MapMerged) : MapMerged :=
  mkMapMerged (mm_destination m) (mm_total m) (mm_lat m) (mm_lon m)
    (Some (default 0 (mm_incident m))).

(** Line 102, on one row: a NaN incident would give a NaN percentage. *)
Definition with_percent_incident (m : MapMerged) : MapRow :=
  mkMapRow (mm_destination m) (mm_total m) (mm_lat m) (mm_lon m) (mm_incident m)
    ((λ i, percent i (mm_total m)) <$> mm_incident m).

(** [merged] as [px.scatter_mapbox] receives it. *)
Definition map_table (filtered_df : list Shipment) (status_type : string) : list MapRow :=
  with_percent_incident <$> (fill_incident <$>
    merge_destinations (total_shipments filtered_df)
                       (status_shipments filtered_df status_type)).

(** ** The script over a store of DataFrames *)

Inductive frame :=
| ShipmentsF (has_delivery_date : bool) (rows : list Shipment)
| ReferenceF (rows : list (list string))
| MergedF (rows : list MergedRow)
| BarF (rows : list BarRow)
| MapMergedF (rows : list MapMerged)
| MapF (rows : list MapRow).

(** What the page shows. *)
Record Dashboard := mkDashboard {
  metric_total_missing : nat;
  metric_avg_transit : string;
  metric_total_damaged : nat;
  status_fig : list (option string);
  comparison_fig : list BarRow;
  trend_fig : list TrendRow;
  map_fig : string * list MapRow
}.

(** The four CSV files as [read_csv] parses them. *)
Record Files := mkFiles {
  shipments_has_delivery_date : bool;
  shipments_csv : list Shipment;
  drivers_csv : list (list string);
  vehicles_csv : list (list string);
  routes_csv : list (list string)
}.

(** The state of the three sidebar widgets; the driver box offers "All" and
    the distinct [driver_id] values, NaN included. *)
Record Sidebar := mkSidebar {
  selected_driver : option string;
  breakdown_type : column_name;
  map_status_type : string
}.

(** The store of DataFrame objects and the warning banners shown so far. *)
Record world := mkWorld { heap : list frame; banners : list string }.

Definition M (A : Type) : Type := world → Py.exn + (A * world).

Global Instance M_ret : MRet M := λ A a w, inr (a, w).
Global Instance M_bind : MBind M := λ A B f m w,
  match m w with
  | inl e => inl e
  | inr (a, w') => f a w'
  end.

Definition raise {A} (e : Py.exn) : M A := λ _, inl e.

(** A new DataFrame object. *)
Definition alloc (f : frame) : M nat :=
  λ w, inr (length (heap w), mkWorld (heap w ++ [f]) (banners w)).

Definition load (l : nat) : M frame :=
  λ w, match heap w !! l with
       | Some f => inr (f, w)
       | None => inl Py.KeyError
       end.

(** Assignment into an existing DataFrame object. *)
Definition store (l : nat) (f : frame) : M unit :=
  λ w, inr ((), mkWorld (<[l := f]> (heap w)) (banners w)).

(** [st.warning]. *)
Definition st_warning (msg : string) : M unit :=
  λ w, inr ((), mkWorld (heap w) (banners w ++ [msg])).

Definition shipments (l : nat) : M (bool * list Shipment) :=
  f ← load l;
  match f with
  | ShipmentsF has_dd rows => mret (has_dd, rows)
  | _ => raise Py.KeyError
  end.

Definition skip : M unit := mret ().

(** [df[column] = f(df)] on a shipments table. *)
Definition assign_shipments (l : nat) (has_dd : bool)
    (f : list Shipment → list Shipment) : M unit :=
  '(_, rows) ← shipments l;
  store l (ShipmentsF has_dd (f rows)).

(** [df.copy()]. *)
Definition copy (l : nat) : M nat := f ← load l; alloc f.

(** [df[mask]]: a new object. *)
Definition slice (l : nat) (mask : Shipment → bool) : M nat :=
  '(has_dd, rows) ← shipments l;
  alloc (ShipmentsF has_dd (Pandas.select mask rows)).

(** Lines 6-9: the four files become four DataFrame objects. *)
Definition load_data (files : Files) : M nat :=
  shipments_df ← alloc (ShipmentsF (shipments_has_delivery_date files) (shipments_csv files));
  _ ← alloc (ReferenceF (drivers_csv files));
  _ ← alloc (ReferenceF (vehicles_csv files));
  _ ← alloc (ReferenceF (routes_csv files));
  mret shipments_df.

(** Lines 11-24: the derived columns are written into [shipments_df].
    [read_csv] parses no dates in a file without rows: [delivery_time] is
    then an empty column of dtype object, which has no [.dt] accessor. *)
Definition add_columns (shipments_df : nat) : M unit :=
  '(has_dd, rows) ← shipments shipments_df;
  match has_dd, rows with
  | true, _ => skip
  | false, [] => raise Py.AttributeError
  | false, _ :: _ => assign_shipments shipments_df true add_delivery_date
  end;;
  assign_shipments shipments_df true add_dest_lat;;
  assign_shipments shipments_df true add_dest_lon.

(** Lines 27-29. *)
Definition warn_missing_coords (shipments_df : nat) : M unit :=
  '(_, rows) ← shipments shipments_df;
  let missing := missing_coords rows in
  if bool_decide (0 < length missing) then
    match Py.join ", " missing with
    | inl e => raise e
    | inr names => st_warning ("Missing coordinates for: " +:+ names)
    end
  else skip.

(** Line 33: the options of the driver box. *)
Definition driver_options (rows : list Shipment) : list (option string) :=
  Some "All" :: Pandas.unique (driver_id <$> rows).

(** Lines 38-40. *)
Definition filter_by_driver (shipments_df : nat) (selected : option string) : M nat :=
  filtered ← copy shipments_df;
  if bool_decide (selected ≠ Some "All")
  then slice filtered (λ s, Pandas.eq_cell (driver_id s) selected)
  else mret filtered.

(** Lines 66-73: [merged] is built, then its [percent] column is assigned. *)
Definition grouped_percentages (filtered : nat) (breakdown : column_name)
    : M (list BarRow) :=
  '(_, rows) ← shipments filtered;
  merged_df ← alloc (MergedF (merge_groups (incident_by_group breakdown rows)
                                           (total_by_group breakdown rows)));
  f ← load merged_df;
  match f with
  | MergedF ms =>
      store merged_df (BarF (with_percent <$> ms));;
      f' ← load merged_df;
      match f' with
      | BarF bars => mret bars
      | _ => raise Py.KeyError
      end
  | _ => raise Py.KeyError
  end.

(** Lines 88-115: the figure is its title and the table it plots. *)
Definition generate_percentage_map (filtered_df : nat) (status_type : string)
    : M (string * list MapRow) :=
  '(_, rows) ← shipments filtered_df;
  merged_df ← alloc (MapMergedF (merge_destinations (total_shipments rows)
                                   (status_shipments rows status_type)));
  f ← load merged_df;
  match f with
  | MapMergedF ms =>
      store merged_df (MapMergedF (fill_incident <$> ms));;
      f1 ← load merged_df;
      match f1 with
      | MapMergedF ms1 =>
          store merged_df (MapF (with_percent_incident <$> ms1));;
          f2 ← load merged_df;
          match f2 with
          | MapF table =>
              mret ("🌍 % of " +:+ status_type +:+ " Shipments by Destination", table)
          | _ => raise Py.KeyError
          end
      | _ => raise Py.KeyError
      end
  | _ => raise Py.KeyError
  end.

(** Lines 38-119: everything after the warning. *)
Definition render (shipments_df : nat) (ui : Sidebar) : M Dashboard :=
  filtered ← filter_by_driver shipments_df (selected_driver ui);
  '(_, rows) ← shipments filtered;
  comparison ← grouped_percentages filtered (breakdown_type ui);
  map ← generate_percentage_map filtered (map_status_type ui);
  mret (mkDashboard (total_missing rows) (avg_transit_text rows) (damaged_count rows)
          (status <$> rows) comparison (trend_data rows) map).

(** The whole script; it returns the location of [shipments_df] too. *)
Definition script (files : Files) (ui : Sidebar) : M (nat * Dashboard) :=
  shipments_df ← load_data files;
  add_columns shipments_df;;
  warn_missing_coords shipments_df;;
  page ← render shipments_df ui;
  mret (shipments_df, page).

(** A fresh run starts with an empty store and no banner. *)
Definition run (files : Files) (ui : Sidebar) : Py.exn + (nat * Dashboard * world) :=
  script files ui (mkWorld [] []).

(** The page as a function of the rows of [filtered]. *)
Definition page_of (filtered : list Shipment) (breakdown : column_name)
    (status_type : string) : Dashboard :=
  mkDashboard (total_missing filtered) (avg_transit_text filtered) (damaged_count filtered)
    (status <$> filtered) (merged breakdown filtered) (trend_data filtered)
    ("🌍 % of " +:+ status_type +:+ " Shipments by Destination",
     map_table filtered status_type).

(** The page as a function of the rows of [shipments_df] and the sidebar. *)
Definition dashboard (shipments_df : list Shipment) (ui : Sidebar) : Dashboard :=
  page_of (filtered_rows (selected_driver ui) shipments_df)
    (breakdown_type ui) (map_status_type ui).

(** ** Row-by-row descriptions used in the statements *)

(** The keys of [incident_by_group]. *)
Definition incident_keys (bt : column_name) (df : list Shipment) : list (string * string) :=
  Pandas.group_keys Pandas.pair_le (incident_key bt) (incidents_only df).

(** The row of [merged] for group [ks.1] and status [ks.2]. *)
Definition bar_row (bt : column_name) (df : list Shipment) (ks : string * string) : BarRow :=
  let n := length (Pandas.group_rows (incident_key bt) (incidents_only df) ks) in
  let t := length (Pandas.group_rows (column bt) df ks.1) in
  mkBarRow ks.1 ks.2 n t (percent n t).

(** The row of the map table for destination [d]. *)
Definition map_row (df : list Shipment) (st : string) (d : string) : MapRow :=
  let t := length (Pandas.group_rows destination df d) in
  let n := length (Pandas.group_rows destination (with_status st df) d) in
  mkMapRow d t
    (Pandas.first (dest_lat <$> Pandas.group_rows destination df d))
    (Pandas.first (dest_lon <$> Pandas.group_rows destination df d))
    (Some n) (Some (percent n t)).

(** ** The words of the specification *)






(** ** The float64 mean of the transit times *)




(** ** Sample inputs *)

Definition shipment_of (driver vehicle : option string) (st : string) : Shipment :=
  mkShipment driver vehicle (Some "R1") (Some "Chicago") (Some st)
    None None None (coord "lat" (Some "Chicago")) (coord "lon" (Some "Chicago")).

Definition chicago (st : string) : Shipment := shipment_of (Some "D1") (Some "V1") st.

Definition three_of_ten : list Shipment :=
  replicate 3 (chicago "Missing") ++ replicate 7 (chicago "Delivered").

Definition boston : Shipment :=
  mkShipment (Some "D1") (Some "V1") (Some "R1") (Some "Boston") (Some "Missing")
    None None None None None.

Definition blank_destination : Shipment :=
  mkShipment (Some "D1") (Some "V1") (Some "R1") None (Some "Delivered")
    None None None None None.

Definition one_delivered : list Shipment :=
  [shipment_of (Some "D1") (Some "V1") "Delivered"].

Definition missing_and_delivered : list Shipment :=
  [shipment_of (Some "D1") (Some "V1") "Missing";
   shipment_of (Some "D1") (Some "V1") "Delivered"].

Definition no_vehicle : list Shipment := [shipment_of (Some "D1") None "Missing"].

Definition three_incidents : list Shipment :=
  [shipment_of (Some "D1") (Some "V1") "Missing";
   shipment_of (Some "D2") (Some "V1") "Missing";
   shipment_of (Some "D1") None "Damaged"].

Definition two_drivers : list Shipment :=
  [mkShipment (Some "D1") (Some "V1") (Some "R1") (Some "Chicago") (Some "Missing")
     (Some 0%Z) (Some (3 * ns_per_day)%Z) None None None;
   mkShipment (Some "D2") (Some "V2") (Some "R1") (Some "Houston") (Some "Damaged")
     (Some 0%Z) (Some ns_per_day) None None None;
   mkShipment (Some "D1") (Some "V1") (Some "R2") (Some "Chicago") (Some "Missing")
     (Some 0%Z) (Some (2 * ns_per_day)%Z) None None None].

(** A Missing shipment picked up at the epoch and delivered [ns] nanoseconds
    later. *)
Definition in_transit (ns : Z) : Shipment :=
  mkShipment (Some "D1") (Some "V1") (Some "R1") (Some "Chicago") (Some "Missing")
    (Some 0%Z) (Some ns) None None None.

Definition all_drivers : Sidebar := mkSidebar (Some "All") Cdriver_id "Missing".
Definition d1_selected : Sidebar := mkSidebar (Some "D1") Cdriver_id "Missing".

Definition boston_files : Files := mkFiles false [boston] [] [] [].
Definition blank_files : Files :=
  mkFiles false [chicago "Delivered"; blank_destination] [] [] [].

Definition nan_selected : Sidebar := mkSidebar None Cvehicle_id "Damaged".

Definition two_incidents_one_driver : list Shipment :=
  [shipment_of (Some "D1") (Some "V1") "Missing";
   shipment_of (Some "D1") (Some "V2") "Damaged"].

Definition blank_driver : Shipment :=
  mkShipment None (Some "V1") (Some "R1") (Some "Chicago") (Some "Missing")
    None None None None None.

(** * Properties *)

(** ** The model on small inputs *)

Example fl_one_tenth : F64.fl 0.1 = (3602879701896397 # 36028797018963968)%Q.
Proof. by vm_compute. Qed.

Example percent_third : percent 1 3 = F64.fl 33.33.
Proof. by vm_compute. Qed.

Example percent_tie_to_even : percent 1 32 = F64.fl 3.12.
Proof. by vm_compute. Qed.

(** 23 of 160 is 14.375 exactly, but the float64 product is just below it. *)
Example percent_23_of_160 : percent 23 160 = F64.fl 14.37.
Proof. by vm_compute. Qed.

Example format_two_and_a_half : Py.format_1f (5 # 2) = "2.5".
Proof. by vm_compute. Qed.

Example format_small_negative : Py.format_1f (- (4 # 100)) = "-0.0".
Proof. by vm_compute. Qed.

Example join_names : Py.join ", " [Some "Boston"; Some "Denver"] = inr "Boston, Denver".
Proof. by vm_compute. Qed.

Example join_nan : Py.join ", " [Some "Boston"; None] = inl Py.TypeError.
Proof. by vm_compute. Qed.

Example unique_keeps_first : Pandas.unique [3; 1; 3; 2; 1] = [3; 1; 2].
Proof. by vm_compute. Qed.

Example groups_are_sorted :
  total_by_group Cdriver_id three_incidents = [mkTotalRow "D1" 2; mkTotalRow "D2" 1].
Proof. by vm_compute. Qed.

Example transit_of_two_drivers :
  avg_transit_text two_drivers = "2.5 days"
  ∧ avg_transit_text one_delivered = "N/A"
  ∧ avg_transit_text [boston] = "N/A".
Proof. by vm_compute. Qed.

(** 8 h 24 min are 0.35 day, 1 h 12 min are 0.05 day; the float64 quotients
    lie just below and just above, and so do the texts. *)
Example transit_just_below_a_tie :
  avg_transit_text [in_transit 30240000000000] = "0.3 days"
  ∧ avg_transit_text [in_transit 4320000000000] = "0.1 days".
Proof. by vm_compute. Qed.

Example header_only_file_raises :
  run (mkFiles false [] [] [] []) all_drivers = inl Py.AttributeError
  ∧ ∃ page w, run (mkFiles true [] [] [] []) all_drivers = inr (0, page, w).
Proof. split; [by vm_compute|]. eexists _, _. by vm_compute. Qed.

Example boston_run_warns :
  ∃ page heap,
    run boston_files all_drivers
    = inr (0, page, mkWorld heap ["Missing coordinates for: Boston"]).
Proof. eexists _, _. by vm_compute. Qed.

(** ** Lists: [unique], group keys, sizes *)

Section unique_facts.
Context `{EqDecision A}.
Implicit Types l : list A.

Lemma elem_of_unique l x : x ∈ Pandas.unique l ↔ x ∈ l.
Proof.
  induction l as [|y l IH]; simpl; [done|].
  rewrite !elem_of_cons, list_elem_of_filter, IH.
  destruct (decide (x = y)); tauto.
Qed.

Lemma NoDup_unique l : NoDup (Pandas.unique l).
Proof.
  induction l as [|y l IH]; simpl; [constructor|].
  constructor; [|by apply NoDup_filter].
  rewrite list_elem_of_filter. tauto.
Qed.

End unique_facts.

Section groupby_facts.
Context {R K : Type} `{EqDecision K}.
Context (le : relation K) `{∀ a b, Decision (le a b)}.
Context (key : R → option K).
Implicit Types df : list R.

Lemma elem_of_group_keys df k :
  k ∈ Pandas.group_keys le key df ↔ ∃ r, r ∈ df ∧ key r = Some k.
Proof.
  unfold Pandas.group_keys.
  rewrite merge_sort_Permutation, elem_of_unique.
  apply list_elem_of_omap.
Qed.

Lemma NoDup_group_keys df : NoDup (Pandas.group_keys le key df).
Proof.
  unfold Pandas.group_keys.
  rewrite merge_sort_Permutation. apply NoDup_unique.
Qed.

Lemma group_rows_nil df k :
  k ∉ Pandas.group_keys le key df → Pandas.group_rows key df k = [].
Proof.
  rewrite elem_of_group_keys. intros Hk.
  unfold Pandas.group_rows.
  apply elem_of_nil_inv. intros r [? ?]%list_elem_of_filter. eauto.
Qed.

Lemma group_rows_size_pos df k :
  k ∈ Pandas.group_keys le key df → 0 < length (Pandas.group_rows key df k).
Proof.
  rewrite elem_of_group_keys. intros (r & Hr & Hk).
  assert (r ∈ Pandas.group_rows key df k) as Hin
    by (by apply list_elem_of_filter).
  destruct (Pandas.group_rows key df k); [by apply not_elem_of_nil in Hin|].
  simpl. lia.
Qed.

Lemma sum_indicator_none (o : option K) (ks : list K) :
  (∀ k, k ∈ ks → o ≠ Some k) →
  sum_list_with (λ k, if decide (o = Some k) then 1 else 0) ks = 0.
Proof.
  induction ks as [|k ks IH]; intros Hne; simpl; [done|].
  rewrite IH by (intros; apply Hne; by right).
  rewrite decide_False; [done|]. apply Hne. by left.
Qed.

Lemma sum_indicator_one (o : option K) (k0 : K) (ks : list K) :
  NoDup ks → k0 ∈ ks → o = Some k0 →
  sum_list_with (λ k, if decide (o = Some k) then 1 else 0) ks = 1.
Proof.
  intros Hnd Hin ->.
  induction Hnd as [|k ks Hk Hnd IH]; [by apply not_elem_of_nil in Hin|].
  simpl. destruct (decide (Some k0 = Some k)) as [[= ->]|Hne].
  - rewrite sum_indicator_none; [done|]. intros k' Hk' [= ->]. done.
  - apply IH. apply elem_of_cons in Hin as [->|]; done.
Qed.

(** Over a duplicate-free list of keys that covers the table, the group
    sizes add up to the number of rows with a key. *)
Lemma sum_sizes_cover (ks : list K) df :
  NoDup ks →
  (∀ r k, r ∈ df → key r = Some k → k ∈ ks) →
  sum_list_with (λ k, length (Pandas.group_rows key df k)) ks
  = length (filter (λ r, is_Some (key r)) df).
Proof.
  intros Hnd. unfold Pandas.group_rows.
  induction df as [|r df IH]; intros Hcov.
  - clear. induction ks; simpl; auto.
  - rewrite filter_cons.
    assert (∀ ks', sum_list_with (λ k, length (filter (λ r, key r = Some k) (r :: df))) ks'
      = sum_list_with (λ k, if decide (key r = Some k) then 1 else 0) ks'
        + sum_list_with (λ k, length (filter (λ r, key r = Some k) df)) ks') as Hsplit.
    { induction ks' as [|k ks' IHk]; simpl; [done|].
      rewrite IHk, filter_cons. destruct (decide (key r = Some k)); simpl; lia. }
    rewrite Hsplit, IH by (intros; eapply Hcov; [by right|done]).
    destruct (decide (is_Some (key r))) as [[k0 Hk0]|Hnone].
    + rewrite (sum_indicator_one _ k0); [done|done| |done].
      eapply Hcov; [by left|done].
    + rewrite sum_indicator_none; [done|].
      intros k _ Hk. apply Hnone. by exists k.
Qed.

Lemma sum_group_sizes df :
  sum_list_with (λ g, length g.2) (Pandas.groupby le key df)
  = length (filter (λ r, is_Some (key r)) df).
Proof.
  unfold Pandas.groupby.
  rewrite <- (sum_sizes_cover (Pandas.group_keys le key df) df).
  - induction (Pandas.group_keys le key df) as [|k ks IH]; csimpl; [done|].
    by rewrite IH.
  - apply NoDup_group_keys.
  - intros r k ??. apply elem_of_group_keys. eauto.
Qed.
End groupby_facts.

(** Selecting by a key in a table built from duplicate-free keys. *)
Lemma filter_fmap_NoDup {K O} `{EqDecision K} (g : K → O) (P : O → Prop)
    `{∀ o, Decision (P o)} (k0 : K) (ks : list K) :
  NoDup ks →
  (∀ k, P (g k) ↔ k = k0) →
  filter P (g <$> ks) = if decide (k0 ∈ ks) then [g k0] else [].
Proof.
  intros Hnd HP. induction Hnd as [|k ks Hk Hnd IH]; [done|].
  rewrite fmap_cons, filter_cons, IH.
  destruct (decide (P (g k))) as [HPk|Hne].
  - apply HP in HPk as ->.
    rewrite (decide_False (P := k0 ∈ ks)) by done.
    by rewrite decide_True by (by left).
  - destruct (decide (k0 ∈ ks)) as [Hin|Hin].
    + by rewrite decide_True by (by right).
    + rewrite decide_False; [done|].
      intros [->|?]%elem_of_cons; [|done]. by apply Hne, HP.
Qed.

(** ** Rounding *)

Lemma rne_cases q :
  (F64.rne q = Qfloor q ∧ (q - inject_Z (Qfloor q) <= 1 # 2)%Q)
  ∨ (F64.rne q = (Qfloor q + 1)%Z ∧ (1 # 2 <= q - inject_Z (Qfloor q))%Q).
Proof.
  unfold F64.rne.
  destruct (Qcompare_spec (q - inject_Z (Qfloor q)) (1 # 2)) as [He|Hl|Hg].
  - destruct (Z.even (Qfloor q)); [left|right]; split; try done; rewrite He; lra.
  - left. split; [done|lra].
  - right. split; [done|lra].
Qed.

Global Instance rne_proper : Proper (Qeq ==> eq) F64.rne.
Proof.
  intros q1 q2 Hq. unfold F64.rne.
  rewrite (Qfloor_comp _ _ Hq). by rewrite Hq.
Qed.

Lemma rne_bounds q (a b : Z) :
  (inject_Z a <= q)%Q → (q <= inject_Z b)%Q → (a ≤ F64.rne q ≤ b)%Z.
Proof.
  intros Ha Hb.
  pose proof (Qfloor_resp_le _ _ Ha) as Hfa. rewrite Qfloor_Z in Hfa.
  pose proof (Qfloor_resp_le _ _ Hb) as Hfb. rewrite Qfloor_Z in Hfb.
  destruct (rne_cases q) as [[-> _]|[-> Hhalf]]; [lia|].
  split; [lia|].
  assert (inject_Z (Qfloor q) < inject_Z b)%Q as Hlt by lra.
  rewrite <- Zlt_Qlt in Hlt. lia.
Qed.

Lemma rne_inject_Z z : F64.rne (inject_Z z) = z.
Proof. destruct (rne_bounds (inject_Z z) z z); [lra|lra|lia]. Qed.

Lemma rne_near q :
  (- (1 # 2) <= inject_Z (F64.rne q) - q)%Q ∧ (inject_Z (F64.rne q) - q <= 1 # 2)%Q.
Proof.
  pose proof (Qfloor_le q) as Hlo. pose proof (Qlt_floor q) as Hhi.
  destruct (rne_cases q) as [[-> H]|[-> H]].
  - lra.
  - rewrite inject_Z_plus in *. change (inject_Z 1) with 1%Q in *. lra.
Qed.

Lemma rne_mono q1 q2 : (q1 <= q2)%Q → (F64.rne q1 ≤ F64.rne q2)%Z.
Proof.
  intros Hq.
  pose proof (Qfloor_resp_le _ _ Hq) as Hf.
  destruct (rne_cases q1) as [[E1 H1]|[E1 H1]];
    destruct (rne_cases q2) as [[E2 H2]|[E2 H2]]; try lia.
  destruct (decide (Qfloor q1 = Qfloor q2)) as [Heq|]; [|lia].
  assert (q1 == q2)%Q as Hqq by (rewrite Heq in H1; lra).
  rewrite Hqq. lia.
Qed.

Lemma pow2_pos e : (0 < 2 ^ e)%Q.
Proof. by apply Qpower_0_lt. Qed.

Lemma pow2_succ e : (2 ^ (e + 1) == 2 * 2 ^ e)%Q.
Proof. rewrite Qpower_plus by done. rewrite Qpower_1_r. ring. Qed.

Lemma pow2_Z n : (0 ≤ n)%Z → (2 ^ n == inject_Z (2 ^ n))%Q.
Proof. intros. by rewrite Zpower_Qpower. Qed.

Lemma Qmult_pos a b : (0 < a → 0 < b → 0 < a * b)%Q.
Proof. intros. nra. Qed.

Lemma Qdiv_le_cross a b c d :
  (0 < b)%Q → (0 < d)%Q → (a / b <= c / d)%Q ↔ (a * d <= c * b)%Q.
Proof.
  intros Hb Hd. pose proof (Qmult_pos b d Hb Hd) as Hbd.
  rewrite <- (Qmult_le_r (a / b) (c / d) (b * d)) by done.
  assert (a / b * (b * d) == a * d)%Q as -> by (field; lra).
  assert (c / d * (b * d) == c * b)%Q as -> by (field; lra).
  done.
Qed.

Lemma Qdiv_lt_cross a b c d :
  (0 < b)%Q → (0 < d)%Q → (a / b < c / d)%Q ↔ (a * d < c * b)%Q.
Proof.
  intros Hb Hd. pose proof (Qmult_pos b d Hb Hd) as Hbd.
  rewrite <- (Qmult_lt_r (a / b) (c / d) (b * d)) by done.
  assert (a / b * (b * d) == a * d)%Q as -> by (field; lra).
  assert (c / d * (b * d) == c * b)%Q as -> by (field; lra).
  done.
Qed.

Lemma ilog2_spec x :
  (0 < x)%Q → (2 ^ F64.ilog2 x <= x)%Q ∧ (x < 2 ^ (F64.ilog2 x + 1))%Q.
Proof.
  intros Hx. destruct x as [a b]. unfold F64.ilog2. simpl Qnum. simpl Qden.
  assert (0 < a)%Z as Ha by (unfold Qlt in Hx; simpl in Hx; lia).
  pose proof (Z.log2_spec a Ha) as [Ha1 Ha2].
  pose proof (Z.log2_spec (Z.pos b) (Pos2Z.is_pos b)) as [Hb1 Hb2].
  pose proof (Z.log2_nonneg a) as Hla. pose proof (Z.log2_nonneg (Z.pos b)) as Hlb.
  set (la := Z.log2 a) in *. set (lb := Z.log2 (Z.pos b)) in *.
  rewrite Zle_Qle in Ha1, Hb1. rewrite Zlt_Qlt in Ha2, Hb2.
  rewrite Z.pow_succ_r, inject_Z_mult in Ha2, Hb2 by done.
  rewrite <- !pow2_Z in * by done.
  change (inject_Z 2) with 2%Q in *.
  assert (a # b == inject_Z a / inject_Z (Z.pos b))%Q as Hab by apply Qmake_Qdiv.
  assert (0 < inject_Z (Z.pos b))%Q as Hbpos by done.
  pose proof (pow2_pos la) as HA. pose proof (pow2_pos lb) as HB.
  assert (2 ^ (la - lb) == 2 ^ la / 2 ^ lb)%Q as Hc by by apply Qpower_minus.
  assert (2 ^ (la - lb) == 2 * 2 ^ (la - lb - 1))%Q as Hs.
  { rewrite <- pow2_succ. by replace (la - lb - 1 + 1)%Z with (la - lb)%Z by lia. }
  set (A := (2 ^ la)%Q) in *. set (B := (2 ^ lb)%Q) in *.
  set (a' := inject_Z a) in *. set (b' := inject_Z (Z.pos b)) in *.
  clearbody A B a' b'. clear Ha Hla Hlb Hx.
  destruct (Qle_bool (2 ^ (la - lb)) (a # b)) eqn:Hle.
  - apply Qle_bool_iff in Hle. split; [done|].
    rewrite pow2_succ, Hc, Hab.
    assert (2 * (A / B) == (2 * A) / B)%Q as -> by (field; lra).
    apply Qdiv_lt_cross; [done..|]. nra.
  - assert (¬ (2 ^ (la - lb) <= a # b)%Q) as Hn.
    { intros H. apply Qle_bool_iff in H. congruence. }
    apply Qnot_le_lt in Hn.
    replace (la - lb - 1 + 1)%Z with (la - lb)%Z by lia. split; [|done].
    assert (2 ^ (la - lb - 1) == A / (2 * B))%Q as ->.
    { rewrite Hs in Hc. set (y := (2 ^ (la - lb - 1))%Q) in *. clearbody y.
      assert (y == 2 * y / 2)%Q as -> by field. rewrite Hc. field. lra. }
    rewrite Hab. apply Qdiv_le_cross; [lra|done|]. nra.
Qed.

Lemma pow2_le a b : (a ≤ b)%Z → (2 ^ a <= 2 ^ b)%Q.
Proof. intros. by apply Qpower_le_compat_l. Qed.

Lemma pow2_lt_inv a b : (2 ^ a < 2 ^ b)%Q → (a < b)%Z.
Proof. intros. by apply (Qpower_lt_compat_l_inv 2). Qed.

Lemma Qred_zero x : (x == 0)%Q ↔ Qnum (Qred x) = 0%Z.
Proof.
  split.
  - intros H. by rewrite (Qred_complete _ _ H).
  - intros H. rewrite <- (Qred_correct x). unfold Qeq. rewrite H. done.
Qed.

Lemma fl_proper x y : (x == y)%Q → F64.fl x = F64.fl y.
Proof.
  intros H. unfold F64.fl, F64.expo. rewrite (Qred_complete _ _ H).
  destruct (Qnum (Qred y)); [done| |]; apply Qred_complete; by rewrite H.
Qed.

Global Instance fl_Proper : Proper (Qeq ==> Qeq) F64.fl.
Proof. intros x y H. by rewrite (fl_proper x y H). Qed.

Lemma fl_zero x : (x == 0)%Q → F64.fl x = 0%Q.
Proof. intros H. unfold F64.fl. apply Qred_zero in H. by rewrite H. Qed.

Lemma fl_nonzero x :
  ¬ (x == 0)%Q →
  (F64.fl x == inject_Z (F64.rne (x / 2 ^ F64.expo x)) * 2 ^ F64.expo x)%Q.
Proof.
  intros H. unfold F64.fl. rewrite Qred_zero in H.
  destruct (Qnum (Qred x)); [done| |]; apply Qred_correct.
Qed.

Lemma expo_spec x :
  ¬ (x == 0)%Q →
  (2 ^ (F64.expo x + 52) <= Qabs x)%Q ∧ (Qabs x < 2 ^ (F64.expo x + 53))%Q.
Proof.
  intros H. unfold F64.expo.
  assert (0 < Qabs (Qred x))%Q as Hpos.
  { rewrite Qred_correct. pose proof (Qabs_nonneg x).
    destruct (Qeq_dec (Qabs x) 0) as [E|E]; [|lra].
    destruct H. revert E. apply Qabs_case; intros; lra. }
  destruct (ilog2_spec _ Hpos) as [H1 H2].
  assert (Qabs (Qred x) == Qabs x)%Q as HE by by rewrite Qred_correct.
  set (k := F64.ilog2 (Qabs (Qred x))) in *. clearbody k.
  rewrite HE in H1, H2.
  replace (k - 52 + 52)%Z with k by lia.
  replace (k - 52 + 53)%Z with (k + 1)%Z by lia.
  done.
Qed.

Lemma pow2_shift e k : (2 ^ (e + k) == 2 ^ e * 2 ^ k)%Q.
Proof. by apply Qpower_plus. Qed.

(** The relative error of one rounding is at most 2^-53. *)
Lemma fl_error x : (Qabs (F64.fl x - x) <= Qabs x * F64.eps)%Q.
Proof.
  destruct (Qeq_dec x 0) as [E|E].
  { rewrite (fl_zero x E), E. by vm_compute. }
  destruct (expo_spec x E) as [Hlo _]. rewrite (fl_nonzero x E).
  rewrite pow2_shift in Hlo.
  pose proof (pow2_pos (F64.expo x)) as HP.
  set (P := (2 ^ F64.expo x)%Q) in *.
  destruct (rne_near (x / P)) as [H1 H2].
  set (r := inject_Z (F64.rne (x / P))) in *.
  assert (x == x / P * P)%Q as Hx by (field; lra).
  set (m := (x / P)%Q) in *. clearbody r m P.
  assert (r * P - x == (r - m) * P)%Q as -> by (rewrite Hx at 1; ring).
  change F64.eps with (1 # 9007199254740992)%Q.
  change (2 ^ 52)%Q with 4503599627370496%Q in Hlo.
  set (ax := Qabs x) in *. clearbody ax. clear Hx E.
  apply Qabs_Qle_condition. split; nra.
Qed.

Lemma fl_pos_bounds x :
  (0 < x)%Q →
  (2 ^ (F64.expo x + 52) <= F64.fl x)%Q ∧ (F64.fl x <= 2 ^ (F64.expo x + 53))%Q.
Proof.
  intros Hx. assert (¬ (x == 0)%Q) as E by lra.
  destruct (expo_spec x E) as [Hlo Hhi]. rewrite Qabs_pos in Hlo, Hhi by lra.
  rewrite (fl_nonzero x E).
  rewrite (pow2_shift (F64.expo x) 52) in *. rewrite (pow2_shift (F64.expo x) 53) in *.
  pose proof (pow2_pos (F64.expo x)) as HP.
  set (P := (2 ^ F64.expo x)%Q) in *.
  change (2 ^ 52)%Q with (inject_Z (2 ^ 52)) in *.
  change (2 ^ 53)%Q with (inject_Z (2 ^ 53)) in *.
  destruct (rne_bounds (x / P) (2 ^ 52) (2 ^ 53)) as [H1 H2].
  - apply Qle_shift_div_l; [done|]. lra.
  - apply Qle_shift_div_r; [done|]. lra.
  - rewrite Zle_Qle in H1, H2.
    set (r := inject_Z (F64.rne (x / P))) in *. clearbody r P.
    set (a := inject_Z (2 ^ 52)) in *. set (b := inject_Z (2 ^ 53)) in *.
    clearbody a b. clear Hlo Hhi Hx E. split.
    + rewrite (Qmult_comm P a). apply Qmult_le_compat_r; lra.
    + rewrite (Qmult_comm P b). apply Qmult_le_compat_r; lra.
Qed.

Lemma fl_nonneg x : (0 <= x)%Q → (0 <= F64.fl x)%Q.
Proof.
  intros Hx. destruct (Qeq_dec x 0) as [E|E]; [by rewrite (fl_zero x E)|].
  destruct (fl_pos_bounds x) as [H _]; [lra|].
  pose proof (pow2_pos (F64.expo x + 52)). lra.
Qed.

(** Rounding is monotone. *)
Lemma fl_mono x y : (0 <= x)%Q → (x <= y)%Q → (F64.fl x <= F64.fl y)%Q.
Proof.
  intros Hx Hxy.
  destruct (Qeq_dec x 0) as [E|E].
  { rewrite (fl_zero x E). apply fl_nonneg. lra. }
  assert (0 < x)%Q as Hx' by lra. assert (0 < y)%Q as Hy' by lra.
  assert (¬ (y == 0)%Q) as Ey by lra.
  destruct (expo_spec x E) as [Hxl Hxh]. destruct (expo_spec y Ey) as [Hyl Hyh].
  rewrite Qabs_pos in Hxl, Hxh, Hyl, Hyh by lra.
  assert (F64.expo x ≤ F64.expo y)%Z as He.
  { assert (F64.expo x + 52 < F64.expo y + 53)%Z; [|lia].
    apply pow2_lt_inv. lra. }
  destruct (decide (F64.expo x = F64.expo y)) as [Heq|Hne].
  - rewrite (fl_nonzero x E), (fl_nonzero y Ey), Heq.
    pose proof (pow2_pos (F64.expo y)) as HP.
    set (P := (2 ^ F64.expo y)%Q) in *.
    assert (F64.rne (x / P) ≤ F64.rne (y / P))%Z as Hr.
    { apply rne_mono. apply Qdiv_le_cross; [done..|]. nra. }
    rewrite Zle_Qle in Hr.
    set (r1 := inject_Z (F64.rne (x / P))) in *.
    set (r2 := inject_Z (F64.rne (y / P))) in *. clearbody r1 r2 P. nra.
  - destruct (fl_pos_bounds x Hx') as [_ H1]. destruct (fl_pos_bounds y Hy') as [H2 _].
    pose proof (pow2_le (F64.expo x + 53) (F64.expo y + 52)) as H3.
    eapply Qle_trans; [exact H1|]. eapply Qle_trans; [apply H3; lia|exact H2].
Qed.

(** Integers below 2^53 are floats. *)
Lemma fl_inject_Z z : (0 ≤ z < 2 ^ 53)%Z → (F64.fl (inject_Z z) == inject_Z z)%Q.
Proof.
  intros [Hz0 Hz]. destruct (decide (z = 0%Z)) as [->|Hne]; [by rewrite fl_zero|].
  assert (0 < inject_Z z)%Q as Hpos.
  { change 0%Q with (inject_Z 0). rewrite <- Zlt_Qlt. lia. }
  assert (¬ (inject_Z z == 0)%Q) as E by lra.
  destruct (expo_spec _ E) as [Hlo _]. rewrite Qabs_pos in Hlo by lra.
  rewrite (fl_nonzero _ E).
  assert (F64.expo (inject_Z z) ≤ 0)%Z as He.
  { assert (F64.expo (inject_Z z) + 52 < 53)%Z; [|lia].
    apply pow2_lt_inv. eapply Qle_lt_trans; [exact Hlo|].
    rewrite pow2_Z by done. rewrite <- Zlt_Qlt. done. }
  set (e := F64.expo (inject_Z z)) in *. clearbody e.
  assert (2 ^ e == / inject_Z (2 ^ (- e)))%Q as HP.
  { rewrite <- pow2_Z by lia. rewrite Qpower_opp, Qinv_involutive. done. }
  assert (0 < inject_Z (2 ^ (- e)))%Q as Hp.
  { rewrite <- pow2_Z by lia. apply pow2_pos. }
  assert (inject_Z z / 2 ^ e == inject_Z (z * 2 ^ (- e)))%Q as ->.
  { rewrite HP, inject_Z_mult. field. lra. }
  rewrite rne_inject_Z, HP, inject_Z_mult. field. lra.
Qed.

Lemma Qnat_nonneg n : (0 <= Qnat n)%Q.
Proof. unfold Qnat. change 0%Q with (inject_Z 0). rewrite <- Zle_Qle. lia. Qed.
Lemma Qnat_pos n : 0 < n → (0 < Qnat n)%Q.
Proof. intros. unfold Qnat. change 0%Q with (inject_Z 0). rewrite <- Zlt_Qlt. lia. Qed.
Lemma Qnat_le n m : n ≤ m → (Qnat n <= Qnat m)%Q.
Proof. intros. unfold Qnat. rewrite <- Zle_Qle. lia. Qed.

Lemma fl_le_const x (c : Z) :
  (0 ≤ c < 2 ^ 53)%Z → (0 <= x)%Q → (x <= inject_Z c)%Q → (F64.fl x <= inject_Z c)%Q.
Proof.
  intros Hc Hx Hxc. rewrite <- (fl_inject_Z c Hc). by apply fl_mono.
Qed.

Lemma of_nat_pos n : 0 < n → (0 < F64.of_nat n)%Q.
Proof.
  intros Hn. destruct (fl_pos_bounds (Qnat n) (Qnat_pos n Hn)) as [H _].
  pose proof (pow2_pos (F64.expo (Qnat n) + 52)). unfold F64.of_nat, F64.of_Z.
  fold (Qnat n). lra.
Qed.

Lemma of_nat_le n m : n ≤ m → (F64.of_nat n <= F64.of_nat m)%Q.
Proof. intros. apply fl_mono; [apply Qnat_nonneg|by apply Qnat_le]. Qed.

Lemma of_nat_exact n : (Z.of_nat n < 2 ^ 53)%Z → (F64.of_nat n == Qnat n)%Q.
Proof. intros. apply fl_inject_Z. lia. Qed.

Lemma round2_bounds x :
  (0 <= x)%Q → (x <= 100)%Q → (0 <= Pandas.round 2 x)%Q ∧ (Pandas.round 2 x <= 100)%Q.
Proof.
  intros H0 H1. unfold Pandas.round, Pandas.rint, F64.div, F64.mul.
  change (inject_Z (10 ^ Z.of_nat 2)) with 100%Q.
  assert (0 <= F64.fl (x * 100))%Q as Ha by (apply fl_nonneg; lra).
  assert (F64.fl (x * 100) <= inject_Z 10000)%Q as Hb.
  { apply fl_le_const; [done|lra|]. change (inject_Z 10000) with 10000%Q. lra. }
  destruct (rne_bounds _ 0 10000 Ha Hb) as [Hlo Hhi].
  rewrite Zle_Qle in Hlo, Hhi.
  change (inject_Z 0) with 0%Q in Hlo. change (inject_Z 10000) with 10000%Q in Hhi.
  set (k := inject_Z (F64.rne _)) in *. clearbody k.
  assert (0 <= k / 100)%Q by (apply Qle_shift_div_l; lra).
  assert (k / 100 <= 100)%Q by (apply Qle_shift_div_r; lra).
  split; [by apply fl_nonneg|].
  change 100%Q with (inject_Z 100) at 2. by apply fl_le_const.
Qed.

Lemma ratio_bounds n t :
  n ≤ t → 0 < t →
  (0 <= F64.div (F64.of_nat n) (F64.of_nat t))%Q ∧ (F64.div (F64.of_nat n) (F64.of_nat t) <= 1)%Q.
Proof.
  intros Hnt Ht. pose proof (of_nat_pos t Ht) as Hp.
  pose proof (of_nat_le n t Hnt) as Hle.
  assert (0 <= F64.of_nat n)%Q as Hn by (apply fl_nonneg, Qnat_nonneg).
  set (a := F64.of_nat n) in *. set (b := F64.of_nat t) in *. clearbody a b. clear Hnt Ht.
  assert (0 <= a / b)%Q by (apply Qle_shift_div_l; lra).
  assert (a / b <= 1)%Q by (apply Qle_shift_div_r; lra).
  split; [by apply fl_nonneg|].
  change 1%Q with (inject_Z 1). by apply fl_le_const.
Qed.

Lemma percent_bounds n t :
  n ≤ t → 0 < t → (0 <= percent n t)%Q ∧ (percent n t <= 100)%Q.
Proof.
  intros Hnt Ht. destruct (ratio_bounds n t Hnt Ht) as [H0 H1].
  unfold percent. set (r := F64.div _ _) in *. clearbody r.
  apply round2_bounds.
  - apply fl_nonneg. lra.
  - change 100%Q with (inject_Z 100) at 2. apply fl_le_const; [done|lra|].
    change (inject_Z 100) with 100%Q. lra.
Qed.

Lemma percent_zero t : percent 0 t = 0%Q.
Proof.
  unfold percent, Pandas.round, F64.div, F64.mul.
  assert (F64.fl (F64.of_nat 0 / F64.of_nat t) = 0%Q) as ->.
  { apply fl_zero. change (F64.of_nat 0) with 0%Q. unfold Qdiv. by rewrite Qmult_0_l. }
  done.
Qed.

Lemma percent_3_of_10 : (percent 3 10 == 30)%Q.
Proof. by vm_compute. Qed.

Lemma fl_error_nonneg x :
  (0 <= x)%Q → (x - x * F64.eps <= F64.fl x)%Q ∧ (F64.fl x <= x + x * F64.eps)%Q.
Proof.
  intros Hx. pose proof (fl_error x) as H. rewrite (Qabs_pos x) in H by done.
  apply Qabs_Qle_condition in H. lra.
Qed.

(** The percentage is the double nearest to a number of hundredths [k] that
    lies within half a hundredth, and three roundings, of the exact
    percentage. *)
Lemma percent_nearest n t :
  n ≤ t → 0 < t → (Z.of_nat t < 2 ^ 53)%Z →
  ∃ k : Z, (0 ≤ k ≤ 10000)%Z
    ∧ percent n t = F64.fl (inject_Z k / 100)
    ∧ (Qabs (inject_Z k / 100 - Qnat n / Qnat t * 100) <= (5 # 1000) + (1 # 10 ^ 13))%Q.
Proof.
  intros Hnt Ht Hbig. destruct (ratio_bounds n t Hnt Ht) as [H0 H1].
  unfold percent, Pandas.round, Pandas.rint. change (inject_Z (10 ^ Z.of_nat 2)) with 100%Q.
  unfold F64.div at 1. unfold F64.div in H0, H1.
  assert (F64.of_nat n / F64.of_nat t == Qnat n / Qnat t)%Q as Hq.
  { rewrite !of_nat_exact by lia. done. }
  rewrite (fl_proper _ _ Hq) in H0, H1. unfold F64.div. rewrite (fl_proper _ _ Hq).
  pose proof (Qnat_pos t Ht) as Hp. pose proof (Qnat_nonneg n) as Hn0.
  pose proof (Qnat_le n t Hnt) as Hle.
  assert (0 <= Qnat n / Qnat t)%Q as Hq0 by (apply Qle_shift_div_l; lra).
  assert (Qnat n / Qnat t <= 1)%Q as Hq1 by (apply Qle_shift_div_r; lra).
  set (q := (Qnat n / Qnat t)%Q) in *. clearbody q. clear Hq Hp Hn0 Hle Hnt Ht Hbig.
  destruct (fl_error_nonneg q Hq0) as [E1 E1'].
  set (r1 := F64.fl q) in *. clearbody r1.
  unfold F64.mul.
  assert (0 <= r1 * 100)%Q as Hr1 by lra.
  destruct (fl_error_nonneg _ Hr1) as [E2 E2'].
  assert (F64.fl (r1 * 100) <= inject_Z 100)%Q as Hr2.
  { apply fl_le_const; [done|lra|]. change (inject_Z 100) with 100%Q. lra. }
  pose proof (fl_nonneg _ Hr1) as Hr2'.
  set (r2 := F64.fl (r1 * 100)) in *. clearbody r2.
  change (inject_Z 100) with 100%Q in Hr2.
  assert (0 <= r2 * 100)%Q as Hr2'' by lra.
  destruct (fl_error_nonneg _ Hr2'') as [E3 E3'].
  assert (F64.fl (r2 * 100) <= inject_Z 10000)%Q as Hr3.
  { apply fl_le_const; [done|lra|]. change (inject_Z 10000) with 10000%Q. lra. }
  pose proof (fl_nonneg _ Hr2'') as Hr3'.
  set (r3 := F64.fl (r2 * 100)) in *. clearbody r3.
  destruct (rne_bounds r3 0 10000 Hr3' Hr3) as [Hk0 Hk1].
  destruct (rne_near r3) as [N1 N2].
  exists (F64.rne r3). split; [done|]. split; [done|].
  set (k := inject_Z (F64.rne r3)) in *. clearbody k.
  change F64.eps with (1 # 9007199254740992)%Q in *.
  change (inject_Z 10000) with 10000%Q in *.
  change (1 # 10 ^ 13)%Q with (1 # 10000000000000)%Q.
  assert (k / 100 - q * 100 == (k - q * 10000) / 100)%Q as -> by field.
  apply Qabs_Qle_condition. split.
  - apply Qle_shift_div_l; [done|]. lra.
  - apply Qle_shift_div_r; [done|]. lra.
Qed.

(** Below 2^32 rows the float64 error cannot move the percentage across a
    midpoint between two hundredths that is not hit exactly: the result is
    the double of a hundredth nearest to the exact percentage. *)
Lemma percent_rounded n t :
  n ≤ t → 0 < t → (Z.of_nat t < 2 ^ 32)%Z →
  ∃ k : Z, (0 ≤ k ≤ 10000)%Z
    ∧ percent n t = F64.fl (inject_Z k / 100)
    ∧ (Qabs (inject_Z k / 100 - Qnat n / Qnat t * 100) <= 1 # 200)%Q.
Proof.
  intros Hnt Ht Hbig.
  destruct (percent_nearest n t Hnt Ht) as (k & Hk & Hp & Hnear); [lia|].
  exists k. split; [done|]. split; [done|].
  apply Qabs_Qle_condition in Hnear as [H1 H2].
  pose proof (Qnat_pos t Ht) as Htq. unfold Qnat in *.
  set (N := Z.of_nat n) in *. set (T := Z.of_nat t) in *.
  assert (inject_Z T < 4294967296)%Q as HT.
  { change 4294967296%Q with (inject_Z (2 ^ 32)). by rewrite <- Zlt_Qlt. }
  assert (inject_Z k / 100 - inject_Z N / inject_Z T * 100
          == (inject_Z (2 * k * T - 20000 * N)) / (200 * inject_Z T))%Q as HD.
  { unfold Z.sub. rewrite inject_Z_plus, inject_Z_opp, !inject_Z_mult.
    change (inject_Z 2) with 2%Q. change (inject_Z 20000) with 20000%Q. field. lra. }
  rewrite HD in H1, H2 |- *.
  set (D := (2 * k * T - 20000 * N)%Z) in *.
  assert (0 < 200 * inject_Z T)%Q as Hden by lra.
  change (1 # 10 ^ 13)%Q with (1 # 10000000000000)%Q in *.
  assert (inject_Z D == inject_Z D / (200 * inject_Z T) * (200 * inject_Z T))%Q as HDq
    by (field; lra).
  apply (Qmult_le_compat_r _ _ (200 * inject_Z T)) in H1; [|lra].
  apply (Qmult_le_compat_r _ _ (200 * inject_Z T)) in H2; [|lra].
  rewrite <- HDq in H1, H2.
  assert (inject_Z D < inject_Z (T + 1))%Q as Hu.
  { rewrite inject_Z_plus. change (inject_Z 1) with 1%Q.
    set (d := inject_Z D) in *. set (tq := inject_Z T) in *. clearbody d tq.
    clear -H2 HT Htq. lra. }
  assert (inject_Z (- T - 1) < inject_Z D)%Q as Hl.
  { unfold Z.sub. rewrite inject_Z_plus, !inject_Z_opp. change (inject_Z 1) with 1%Q.
    set (d := inject_Z D) in *. set (tq := inject_Z T) in *. clearbody d tq.
    clear -H1 HT Htq. lra. }
  rewrite <- Zlt_Qlt in Hu, Hl.
  assert (inject_Z D <= inject_Z T)%Q as Hu' by (rewrite <- Zle_Qle; lia).
  assert (inject_Z (- T) <= inject_Z D)%Q as Hl' by (rewrite <- Zle_Qle; lia).
  rewrite inject_Z_opp in Hl'.
  set (d := inject_Z D) in *. set (tq := inject_Z T) in *. clearbody d tq.
  apply Qabs_Qle_condition. split.
  - apply Qle_shift_div_l; [done|]. lra.
  - apply Qle_shift_div_r; [done|]. lra.
Qed.


(** ** The tables, row by row *)

Lemma bind_fmap_singleton {A B} (f : A → B) (g : A → list B) (l : list A) :
  (∀ x, x ∈ l → g x = [f x]) → l ≫= g = f <$> l.
Proof.
  induction l as [|x l IH]; intros Hg; [done|].
  rewrite bind_cons, fmap_cons, Hg by left. simpl. f_equal.
  apply IH. intros. apply Hg. by right.
Qed.

(** The map table has one row per destination, in the order of the keys. *)
Lemma map_table_rows df st :
  map_table df st
  = map_row df st <$> Pandas.group_keys Pandas.str_le destination df.
Proof.
  unfold map_table, merge_destinations, Pandas.merge_left, total_shipments,
    status_shipments, Pandas.groupby.
  rewrite !list_fmap_bind.
  rewrite (bind_fmap_singleton
    (λ d, mkMapMerged d (length (Pandas.group_rows destination df d))
            (Pandas.first (dest_lat <$> Pandas.group_rows destination df d))
            (Pandas.first (dest_lon <$> Pandas.group_rows destination df d))
            (if decide (d ∈ Pandas.group_keys Pandas.str_le destination (with_status st df))
             then Some (length (Pandas.group_rows destination (with_status st df) d))
             else None))).
  - rewrite <- !list_fmap_compose. apply list_fmap_ext. intros _ d _. simpl.
    unfold fill_incident, with_percent_incident, map_row. simpl.
    destruct (decide _) as [|Hd]; simpl; [done|].
    by rewrite (group_rows_nil _ _ _ _ Hd).
  - intros d _. simpl.
    rewrite <- list_fmap_compose.
    rewrite (filter_fmap_NoDup _ _ d).
    + destruct (decide _); simpl; done.
    + apply NoDup_group_keys.
    + intros k. simpl. done.
Qed.

(** ** The structure of the grouped table *)

Lemma with_status_filter st df :
  with_status st df = filter (λ s, status s = Some st) df.
Proof.
  unfold with_status, Pandas.select, Pandas.eq_scalar.
  apply list_filter_iff. intros s. apply bool_decide_eq_true.
Qed.

Lemma incident_key_Some bt s k st :
  incident_key bt s = Some (k, st) ↔ column bt s = Some k ∧ status s = Some st.
Proof.
  unfold incident_key. destruct (column bt s), (status s); simpl;
    (split; [intros [=]|intros [[=] [=]]]); subst; done.
Qed.

Lemma incident_rows bt df k st :
  st ∈ ["Missing"; "Damaged"] →
  Pandas.group_rows (incident_key bt) (incidents_only df) (k, st)
  = filter (λ s, column bt s = Some k ∧ status s = Some st) df.
Proof.
  intros Hst. unfold Pandas.group_rows, incidents_only, Pandas.select.
  rewrite list_filter_filter. apply list_filter_iff. intros s.
  rewrite incident_key_Some. split; [tauto|]. intros [Hk Hs]. split; [done|].
  rewrite Hs. simpl. by apply bool_decide_eq_true.
Qed.

Lemma elem_of_incident_keys bt df k st :
  (k, st) ∈ incident_keys bt df
  ↔ st ∈ ["Missing"; "Damaged"]
    ∧ ∃ s, s ∈ df ∧ column bt s = Some k ∧ status s = Some st.
Proof.
  unfold incident_keys. rewrite elem_of_group_keys. unfold incidents_only, Pandas.select.
  split.
  - intros (s & [Hin Hs]%list_elem_of_filter & [Hk Hst]%incident_key_Some).
    rewrite Hst in Hin. simpl in Hin. apply bool_decide_eq_true in Hin. eauto.
  - intros (Hst & s & Hs & Hk & Hss). exists s. rewrite list_elem_of_filter, incident_key_Some.
    rewrite Hss. simpl. rewrite bool_decide_eq_true. done.
Qed.

(** The grouped table has one row per observed (group, status) pair. *)
Lemma merged_rows bt df :
  merged bt df = bar_row bt df <$> incident_keys bt df.
Proof.
  unfold merged, merge_groups, Pandas.merge_inner, incident_by_group, total_by_group,
    Pandas.groupby.
  change (Pandas.group_keys Pandas.pair_le _ _) with (incident_keys bt df).
  rewrite !list_fmap_bind.
  rewrite (bind_fmap_singleton
    (λ ks, mkMergedRow ks.1 ks.2
             (length (Pandas.group_rows (incident_key bt) (incidents_only df) ks))
             (length (Pandas.group_rows (column bt) df ks.1)))).
  - rewrite <- list_fmap_compose. done.
  - intros [k st] Hks. simpl.
    rewrite <- list_fmap_compose.
    rewrite (filter_fmap_NoDup _ _ k).
    + rewrite decide_True; [done|].
      apply elem_of_incident_keys in Hks as (_ & s & ? & ? & _).
      apply elem_of_group_keys. eauto.
    + apply NoDup_group_keys.
    + intros k'. simpl. done.
Qed.

Lemma sum_list_with_ext_in {A} (f g : A → nat) (l : list A) :
  (∀ x, x ∈ l → f x = g x) → sum_list_with f l = sum_list_with g l.
Proof.
  induction l as [|x l IH]; intros Hfg; simpl; [done|].
  rewrite Hfg by left. rewrite IH; [done|]. intros. apply Hfg. by right.
Qed.

Lemma status_rows_by_key bt df k st :
  Pandas.group_rows (incident_key bt) (with_status st df) (k, st)
  = filter (λ s, column bt s = Some k ∧ status s = Some st) df.
Proof.
  unfold Pandas.group_rows. rewrite with_status_filter, list_filter_filter.
  apply list_filter_iff. intros s. rewrite incident_key_Some. tauto.
Qed.

(** The counts of one status, summed over its groups. *)
Lemma sum_counts_status bt df st :
  st ∈ ["Missing"; "Damaged"] →
  sum_list_with (λ ks, length (Pandas.group_rows (incident_key bt) (incidents_only df) ks))
    (filter (λ ks, ks.2 = st) (incident_keys bt df))
  = length (filter (λ s, is_Some (column bt s)) (with_status st df)).
Proof.
  intros Hst.
  trans (sum_list_with
           (λ ks, length (Pandas.group_rows (incident_key bt) (with_status st df) ks))
           (filter (λ ks, ks.2 = st) (incident_keys bt df))).
  { apply sum_list_with_ext_in. intros [k st'] [Hst' _]%list_elem_of_filter.
    simpl in Hst'. subst st'. by rewrite incident_rows, status_rows_by_key. }
  rewrite (sum_sizes_cover (incident_key bt)).
  - rewrite with_status_filter, !list_filter_filter. f_equal.
    apply list_filter_iff. intros s. split.
    + intros [[[k st'] Hk] Hs]. apply incident_key_Some in Hk as [Hk _].
      rewrite Hk. eauto.
    + intros [[k Hk] Hs]. split; [|done]. exists (k, st). by apply incident_key_Some.
  - apply NoDup_filter, NoDup_group_keys.
  - intros s [k st'] Hs Hk. apply incident_key_Some in Hk as [Hk Hst'].
    rewrite with_status_filter in Hs. apply list_elem_of_filter in Hs as [Hs Hin].
    assert (st' = st) as -> by congruence.
    apply list_elem_of_filter. split; [done|].
    apply elem_of_incident_keys. eauto.
Qed.

Lemma incident_by_group_rows bt df :
  incident_by_group bt df
  = (λ ks, mkIncidentRow ks.1 ks.2
             (length (Pandas.group_rows (incident_key bt) (incidents_only df) ks)))
    <$> incident_keys bt df.
Proof.
  unfold incident_by_group, Pandas.groupby. by rewrite <- list_fmap_compose.
Qed.

Lemma sum_filter_fmap {A B} (g : A → B) (c : B → nat) (P : B → Prop)
    `{∀ b, Decision (P b)} (l : list A) :
  sum_list_with c (filter P (g <$> l))
  = sum_list_with (c ∘ g) (filter (P ∘ g) l).
Proof.
  induction l as [|x l IH]; [done|].
  rewrite fmap_cons, !filter_cons. simpl.
  destruct (decide (P (g x))); simpl; by rewrite IH.
Qed.

(** ** Selections *)

Lemma elem_of_select {R} (mask : R → bool) (df : list R) r :
  r ∈ Pandas.select mask df ↔ r ∈ df ∧ mask r = true.
Proof. unfold Pandas.select. rewrite list_elem_of_filter. tauto. Qed.

Lemma eq_cell_true c v :
  Pandas.eq_cell c v = true ↔ ∃ d, c = Some d ∧ v = Some d.
Proof.
  unfold Pandas.eq_cell. destruct c as [a|], v as [b|]; simpl;
    rewrite ?bool_decide_eq_true; split; try done.
  - intros ->. eauto.
  - by intros (d & [= ->] & [= ->]).
  - by intros (d & _ & [=]).
  - by intros (d & [=] & _).
  - by intros (d & [=] & _).
Qed.

(** ** Rows of the map table *)

Lemma group_rows_status_le (df : list Shipment) st d :
  length (Pandas.group_rows destination (with_status st df) d)
  ≤ length (Pandas.group_rows destination df d).
Proof.
  unfold Pandas.group_rows. rewrite with_status_filter, list_filter_filter.
  rewrite (list_filter_iff _ (λ s, status s = Some st ∧ destination s = Some d))
    by (intros; tauto).
  rewrite <- list_filter_filter. apply length_filter.
Qed.

Lemma destination_rows_status (df : list Shipment) st d :
  Pandas.group_rows destination (with_status st df) d
  = filter (λ s, destination s = Some d ∧ status s = Some st) df.
Proof.
  unfold Pandas.group_rows. by rewrite with_status_filter, list_filter_filter.
Qed.

Lemma map_table_at df st d :
  filter (λ r, destination_of r = d) (map_table df st)
  = if decide (Some d ∈ destination <$> df) then [map_row df st d] else [].
Proof.
  rewrite map_table_rows, (filter_fmap_NoDup _ _ d).
  - destruct (decide (d ∈ _)) as [Hd|Hd], (decide (Some d ∈ _)) as [Hd'|Hd'];
      try done; exfalso.
    + apply elem_of_group_keys in Hd as (s & Hs & Hds). apply Hd'.
      rewrite <- Hds. by apply list_elem_of_fmap_2.
    + apply Hd. apply elem_of_group_keys.
      apply list_elem_of_fmap in Hd' as (s & Hds & Hs). eauto.
  - apply NoDup_group_keys.
  - done.
Qed.

Lemma first_all_None {A B} (f : A → option B) (l : list A) :
  (∀ x, x ∈ l → f x = None) → Pandas.first (f <$> l) = None.
Proof.
  induction l as [|x l IH]; intros Hf; [done|].
  rewrite fmap_cons. simpl. rewrite (Hf x) by left.
  apply IH. intros. apply Hf. by right.
Qed.

Lemma incident_keys_count bt df k st :
  st ∈ ["Missing"; "Damaged"] →
  (k, st) ∈ incident_keys bt df
  ↔ 0 < length (filter (λ s, column bt s = Some k ∧ status s = Some st) df).
Proof.
  intros Hst. rewrite elem_of_incident_keys. split.
  - intros (_ & s & Hs & Hk & Hss).
    assert (s ∈ filter (λ s, column bt s = Some k ∧ status s = Some st) df) as Hin
      by (by apply list_elem_of_filter).
    destruct (filter _ df); [by apply not_elem_of_nil in Hin|simpl; lia].
  - intros Hpos. split; [done|].
    destruct (filter _ df) as [|s l] eqn:Hf; [simpl in Hpos; lia|].
    assert (s ∈ filter (λ s, column bt s = Some k ∧ status s = Some st) df) as Hin
      by (rewrite Hf; left).
    apply list_elem_of_filter in Hin as [[? ?] ?]. eauto.
Qed.

(** ** Enrichment *)

Lemma city_coords_complete :
  map_Forall (λ _ v, is_Some (v !! "lat") ∧ is_Some (v !! "lon")) city_coords.
Proof. apply (bool_decide_unpack _). by vm_compute. Qed.

Lemma coord_both_or_neither x :
  (coord "lat" x = None ∧ coord "lon" x = None)
  ∨ (is_Some (coord "lat" x) ∧ is_Some (coord "lon" x)).
Proof.
  unfold coord. destruct x as [d|]; simpl; [|left; by rewrite !lookup_empty].
  destruct (city_coords !! d) as [v|] eqn:Hd; simpl.
  - right. by apply (city_coords_complete d v).
  - left. by rewrite !lookup_empty.
Qed.

Lemma enriched_coords has_dd csv s :
  s ∈ enriched has_dd csv →
  dest_lat s = coord "lat" (destination s) ∧ dest_lon s = coord "lon" (destination s).
Proof.
  unfold enriched, add_dest_lon, add_dest_lat.
  intros (s1 & -> & (s0 & -> & _)%list_elem_of_fmap)%list_elem_of_fmap. done.
Qed.

Lemma coord_lat_None d : coord "lat" (Some d) = None ↔ city_coords !! d = None.
Proof.
  unfold coord. simpl. destruct (city_coords !! d) as [v|] eqn:Hd; simpl.
  - destruct (city_coords_complete d v Hd) as [[q Hq] _]. rewrite Hq. done.
  - by rewrite lookup_empty.
Qed.

Lemma enriched_destinations has_dd csv :
  destination <$> enriched has_dd csv = destination <$> csv.
Proof.
  unfold enriched, add_dest_lon, add_dest_lat, add_delivery_date.
  destruct has_dd; rewrite <- !list_fmap_compose; by apply list_fmap_ext.
Qed.

Lemma elem_of_missing_coords has_dd csv x :
  x ∈ missing_coords (enriched has_dd csv)
  ↔ x ∈ destination <$> csv ∧ coord "lat" x = None.
Proof.
  unfold missing_coords. rewrite elem_of_unique, list_elem_of_fmap.
  rewrite <- (enriched_destinations has_dd csv), list_elem_of_fmap.
  split.
  - intros (s & -> & [Hs Hna]%elem_of_select). split; [eauto|].
    apply enriched_coords in Hs as [<- _].
    unfold Pandas.isna, Pandas.notnull in Hna. by destruct (dest_lat s).
  - intros [(s & -> & Hs) Hnone]. exists s. split; [done|].
    apply elem_of_select. split; [done|].
    apply enriched_coords in Hs as [-> _]. by rewrite Hnone.
Qed.

Lemma coord_unmapped field d : city_coords !! d = None → coord field (Some d) = None.
Proof. unfold coord. simpl. by intros ->. Qed.

Lemma filtered_rows_subseteq sel df s : s ∈ filtered_rows sel df → s ∈ df.
Proof.
  unfold filtered_rows, Pandas.select. case_bool_decide; [|done].
  by intros [_ ?]%list_elem_of_filter.
Qed.

(** ** Average transit time *)



Global Instance format_1f_proper : Proper (Qeq ==> eq) Py.format_1f.
Proof.
  intros x y Hxy. unfold Py.format_1f, Pandas.rint. by rewrite Hxy.
Qed.
















(** ** Running the script *)

Lemma bind_run {A B} (m : M A) (k : A → M B) w a w' :
  m w = inr (a, w') → (m ≫= k) w = k a w'.
Proof. intros Hm. unfold mbind, M_bind. by rewrite Hm. Qed.

Lemma load_run l f w : heap w !! l = Some f → load l w = inr (f, w).
Proof. intros Hl. unfold load. by rewrite Hl. Qed.

Lemma shipments_run l b rows w :
  heap w !! l = Some (ShipmentsF b rows) → shipments l w = inr ((b, rows), w).
Proof. intros Hl. unfold shipments. by rewrite (bind_run _ _ _ _ _ (load_run _ _ _ Hl)). Qed.

Lemma lookup_alloc (h : list frame) (f : frame) : (h ++ [f]) !! length h = Some f.
Proof. by apply list_lookup_middle. Qed.

Lemma copy_run l f w :
  heap w !! l = Some f →
  copy l w = inr (length (heap w), mkWorld (heap w ++ [f]) (banners w)).
Proof. intros Hl. unfold copy. by rewrite (bind_run _ _ _ _ _ (load_run _ _ _ Hl)). Qed.

Lemma slice_run l mask b rows w :
  heap w !! l = Some (ShipmentsF b rows) →
  slice l mask w
  = inr (length (heap w),
         mkWorld (heap w ++ [ShipmentsF b (Pandas.select mask rows)]) (banners w)).
Proof.
  intros Hl. unfold slice. by rewrite (bind_run _ _ _ _ _ (shipments_run _ _ _ _ Hl)).
Qed.

(** Lines 38-40 allocate: the copy, and the slice when a driver is chosen;
    [filtered] is the last object of the store. *)
Lemma filter_by_driver_run l sel b rows w :
  heap w !! l = Some (ShipmentsF b rows) →
  ∃ extra,
    filter_by_driver l sel w
    = inr (length (heap w ++ extra),
           mkWorld ((heap w ++ extra) ++ [ShipmentsF b (filtered_rows sel rows)])
             (banners w)).
Proof.
  intros Hl. unfold filter_by_driver.
  rewrite (bind_run _ _ _ _ _ (copy_run _ _ _ Hl)).
  unfold filtered_rows. case_bool_decide.
  - exists [ShipmentsF b rows]. rewrite (slice_run _ _ b rows); [done|].
    simpl. apply lookup_alloc.
  - exists []. unfold mret, M_ret. by rewrite app_nil_r.
Qed.

Lemma store_alloc_last (h : list frame) (f g : frame) :
  <[length h := g]> (h ++ [f]) = h ++ [g].
Proof. by rewrite insert_app_r_alt, Nat.sub_diag by lia. Qed.

Lemma grouped_percentages_run l bt b rows w :
  heap w !! l = Some (ShipmentsF b rows) →
  grouped_percentages l bt w
  = inr (merged bt rows, mkWorld (heap w ++ [BarF (merged bt rows)]) (banners w)).
Proof.
  intros Hl. unfold grouped_percentages.
  rewrite (bind_run _ _ _ _ _ (shipments_run _ _ _ _ Hl)).
  unfold alloc. unfold mbind at 1, M_bind at 1.
  erewrite bind_run; [|apply load_run; simpl; apply lookup_alloc].
  unfold store. unfold mbind at 1, M_bind at 1. simpl heap. rewrite store_alloc_last.
  erewrite bind_run; [|apply load_run; simpl; apply lookup_alloc].
  done.
Qed.

Lemma generate_percentage_map_run l st b rows w :
  heap w !! l = Some (ShipmentsF b rows) →
  generate_percentage_map l st w
  = inr (("🌍 % of " +:+ st +:+ " Shipments by Destination", map_table rows st),
         mkWorld (heap w ++ [MapF (map_table rows st)]) (banners w)).
Proof.
  intros Hl. unfold generate_percentage_map.
  rewrite (bind_run _ _ _ _ _ (shipments_run _ _ _ _ Hl)).
  unfold alloc. unfold mbind at 1, M_bind at 1.
  erewrite bind_run; [|apply load_run; simpl; apply lookup_alloc].
  unfold store. unfold mbind at 1, M_bind at 1. simpl heap. rewrite store_alloc_last.
  erewrite bind_run; [|apply load_run; simpl; apply lookup_alloc].
  unfold mbind at 1, M_bind at 1. simpl heap. rewrite store_alloc_last.
  erewrite bind_run; [|apply load_run; simpl; apply lookup_alloc].
  done.
Qed.

(** Lines 38-119 only add objects to the store. *)
Lemma render_run l ui b rows w :
  heap w !! l = Some (ShipmentsF b rows) →
  ∃ extra,
    render l ui w = inr (dashboard rows ui, mkWorld (heap w ++ extra) (banners w)).
Proof.
  intros Hl. unfold render.
  destruct (filter_by_driver_run l (selected_driver ui) b rows w Hl) as [extra Hf].
  rewrite (bind_run _ _ _ _ _ Hf). cbv beta iota.
  set (filtered := filtered_rows (selected_driver ui) rows) in *.
  assert (∀ tail, ((heap w ++ extra) ++ ShipmentsF b filtered :: tail)
                  !! length (heap w ++ extra) = Some (ShipmentsF b filtered)) as Hlast
    by (intros; by apply list_lookup_middle).
  erewrite bind_run; [|apply shipments_run; simpl; apply (Hlast [])]. cbv beta iota.
  erewrite bind_run; [|apply grouped_percentages_run with (b := b) (rows := filtered);
                       simpl; apply (Hlast [])]. cbv beta iota.
  erewrite bind_run; [|apply generate_percentage_map_run with (b := b) (rows := filtered);
                       simpl; rewrite <- app_assoc; apply Hlast]. cbv beta iota.
  eexists. unfold mret, M_ret, dashboard, page_of. simpl. fold filtered.
  by rewrite <- !app_assoc.
Qed.

Lemma assign_shipments_run l b b' f rows w :
  heap w !! l = Some (ShipmentsF b rows) →
  assign_shipments l b' f w
  = inr ((), mkWorld (<[l := ShipmentsF b' (f rows)]> (heap w)) (banners w)).
Proof.
  intros Hl. unfold assign_shipments.
  by rewrite (bind_run _ _ _ _ _ (shipments_run _ _ _ _ Hl)).
Qed.

(** Lines 11-24 rewrite [shipments_df] in place. *)
Lemma add_columns_run l has_dd rows w :
  heap w !! l = Some (ShipmentsF has_dd rows) →
  has_dd = true ∨ rows ≠ [] →
  add_columns l w
  = inr ((), mkWorld (<[l := ShipmentsF true (enriched has_dd rows)]> (heap w)) (banners w)).
Proof.
  intros Hl Hdt. pose proof (lookup_lt_Some _ _ _ Hl) as Hlt. unfold add_columns.
  rewrite (bind_run _ _ _ _ _ (shipments_run _ _ _ _ Hl)). cbv beta iota.
  assert (∃ w1, (match has_dd, rows with
                 | true, _ => skip
                 | false, [] => raise Py.AttributeError
                 | false, _ :: _ => assign_shipments l true add_delivery_date
                 end) w = inr ((), w1)
                ∧ banners w1 = banners w
                ∧ <[l := ShipmentsF true (if has_dd then rows else add_delivery_date rows)]>
                    (heap w) = heap w1) as (w1 & Hw1 & Hb & Hh).
  { destruct has_dd.
    - exists w. split; [done|]. split; [done|]. by apply list_insert_id.
    - destruct rows as [|r rows]; [by destruct Hdt|].
      eexists. split; [apply (assign_shipments_run _ _ _ _ _ _ Hl)|]. done. }
  rewrite (bind_run _ _ _ _ _ Hw1). cbv beta.
  erewrite bind_run; [|eapply assign_shipments_run; rewrite <- Hh;
                       by apply list_lookup_insert_eq].
  cbv beta.
  erewrite assign_shipments_run;
    [|simpl; rewrite <- Hh, list_insert_insert_eq; by apply list_lookup_insert_eq].
  simpl. rewrite <- Hh, !list_insert_insert_eq, Hb. done.
Qed.

(** Line 13 on a table without rows. *)
Lemma add_columns_raises l w :
  heap w !! l = Some (ShipmentsF false []) →
  add_columns l w = inl Py.AttributeError.
Proof.
  intros Hl. unfold add_columns.
  by rewrite (bind_run _ _ _ _ _ (shipments_run _ _ _ _ Hl)).
Qed.

(** Lines 27-29. *)
Lemma warn_missing_coords_run l b rows w :
  heap w !! l = Some (ShipmentsF b rows) →
  warn_missing_coords l w
  = match mapM id (missing_coords rows) with
    | None => inl Py.TypeError
    | Some [] => inr ((), w)
    | Some names =>
        inr ((), mkWorld (heap w)
                   (banners w ++ ["Missing coordinates for: " +:+ Py.join_str ", " names]))
    end.
Proof.
  intros Hl. unfold warn_missing_coords.
  rewrite (bind_run _ _ _ _ _ (shipments_run _ _ _ _ Hl)). cbv beta iota zeta.
  unfold Py.join.
  destruct (missing_coords rows) as [|x xs] eqn:Hm.
  - rewrite bool_decide_false by (simpl; lia). done.
  - rewrite bool_decide_true by (simpl; lia).
    destruct (mapM id (x :: xs)) as [[|n ns]|] eqn:Hmap; try done.
    apply length_mapM in Hmap. done.
Qed.

(** The run up to the warning. *)
Lemma run_after_warning files ui :
  shipments_has_delivery_date files = true ∨ shipments_csv files ≠ [] →
  let rows := enriched (shipments_has_delivery_date files) (shipments_csv files) in
  run files ui
  = match mapM id (missing_coords rows) with
    | None => inl Py.TypeError
    | Some names =>
        (render 0 ui ≫= λ page, mret (0, page))
          (mkWorld [ShipmentsF true rows; ReferenceF (drivers_csv files);
                    ReferenceF (vehicles_csv files); ReferenceF (routes_csv files)]
             (match names with
              | [] => []
              | _ => ["Missing coordinates for: " +:+ Py.join_str ", " names]
              end))
    end.
Proof.
  intros Hdt rows. unfold run, script, load_data.
  unfold alloc at 1. unfold mbind at 1, M_bind at 1. simpl heap. simpl banners.
  unfold alloc at 1. unfold mbind at 1, M_bind at 1. simpl heap. simpl banners.
  unfold alloc at 1. unfold mbind at 1, M_bind at 1. simpl heap. simpl banners.
  unfold alloc at 1. unfold mbind at 1, M_bind at 1. simpl heap. simpl banners.
  unfold mret at 1, M_ret at 1. unfold mbind at 1, M_bind at 1. simpl length.
  erewrite bind_run; [|by apply add_columns_run]. cbv beta.
  simpl heap. simpl banners.
  unfold mbind at 1, M_bind at 1.
  erewrite warn_missing_coords_run; [|done]. fold rows.
  destruct (mapM id (missing_coords rows)) as [[|name names]|]; done.
Qed.

(** A file without rows and without a [delivery_date] column stops the run
    at line 13. *)
Lemma run_empty files ui :
  shipments_has_delivery_date files = false → shipments_csv files = [] →
  run files ui = inl Py.AttributeError.
Proof.
  intros Hdd Hcsv. unfold run, script, load_data. rewrite Hdd, Hcsv.
  unfold alloc at 1. unfold mbind at 1, M_bind at 1. simpl heap. simpl banners.
  unfold alloc at 1. unfold mbind at 1, M_bind at 1. simpl heap. simpl banners.
  unfold alloc at 1. unfold mbind at 1, M_bind at 1. simpl heap. simpl banners.
  unfold alloc at 1. unfold mbind at 1, M_bind at 1. simpl heap. simpl banners.
  unfold mret at 1, M_ret at 1. unfold mbind at 1, M_bind at 1. simpl length.
  unfold mbind at 1, M_bind at 1. by rewrite add_columns_raises.
Qed.

(** The whole run. *)
Lemma run_result files ui :
  shipments_has_delivery_date files = true ∨ shipments_csv files ≠ [] →
  let rows := enriched (shipments_has_delivery_date files) (shipments_csv files) in
  match mapM id (missing_coords rows) with
  | None => run files ui
            = inl Py.TypeError
  | Some names =>
      ∃ extra,
        run files ui
        = inr (0, dashboard rows ui,
               mkWorld (ShipmentsF true rows :: extra)
                 (match names with
                  | [] => []
                  | _ => ["Missing coordinates for: " +:+ Py.join_str ", " names]
                  end))
  end.
Proof.
  intros Hdt rows. rewrite run_after_warning by done. fold rows.
  destruct (mapM id (missing_coords rows)) as [names|]; [|done].
  edestruct (render_run 0 ui true rows) as [extra Hr]; [|erewrite bind_run; [|apply Hr]].
  { done. }
  cbv beta. unfold mret, M_ret. simpl. eauto.
Qed.

(** ** The warning *)

Lemma mapM_id_Some {A} (l : list (option A)) :
  None ∉ l → ∃ names, l = Some <$> names ∧ mapM id l = Some names.
Proof.
  induction l as [|[a|] l IH]; intros Hl.
  - by exists [].
  - destruct IH as (names & -> & Hm); [set_solver|].
    exists (a :: names). split; [done|]. simpl. by rewrite Hm.
  - destruct Hl. left.
Qed.

Lemma mapM_id_None {A} (l : list (option A)) : None ∈ l → mapM id l = None.
Proof.
  induction l as [|[a|] l IH]; intros Hl; [by apply not_elem_of_nil in Hl| |done].
  simpl. rewrite IH; [done|]. by apply elem_of_cons in Hl as [|].
Qed.

(** When every unmapped destination is text, the script shows one banner
    that names each of them once, and none when all are mapped. *)
Lemma warning_banner files ui :
  let csv := shipments_csv files in
  let rows := enriched (shipments_has_delivery_date files) csv in
  shipments_has_delivery_date files = true ∨ csv ≠ [] →
  None ∉ destination <$> csv →
  ∃ page w names,
    run files ui = inr (0, page, w)
    ∧ missing_coords rows = Some <$> names
    ∧ NoDup names
    ∧ (∀ d, d ∈ names ↔ Some d ∈ destination <$> csv ∧ city_coords !! d = None)
    ∧ banners w = match names with
                  | [] => []
                  | _ => ["Missing coordinates for: " +:+ Py.join_str ", " names]
                  end.
Proof.
  intros csv rows Hdt Hdest.
  destruct (mapM_id_Some (missing_coords rows)) as (names & Hnames & Hm).
  { intros [Hin _]%elem_of_missing_coords. done. }
  pose proof (run_result files ui Hdt) as Hrun. simpl in Hrun. fold csv rows in Hrun.
  rewrite Hm in Hrun. destruct Hrun as [extra Hrun].
  eexists _, _, names. split; [exact Hrun|]. split; [done|]. split; [|split; [|done]].
  - apply (NoDup_fmap_1 Some). rewrite <- Hnames. apply NoDup_unique.
  - intros d.
    rewrite <- coord_lat_None,
      <- (elem_of_missing_coords (shipments_has_delivery_date files) csv (Some d)).
    fold rows. rewrite Hnames. split; [by apply list_elem_of_fmap_2|].
    by intros (? & [= ->] & ?)%list_elem_of_fmap.
Qed.

(** A blank destination reaches [join] as NaN and the script stops there. *)
Lemma blank_destination_raises files ui :
  None ∈ destination <$> shipments_csv files →
  run files ui = inl Py.TypeError.
Proof.
  intros Hin.
  assert (shipments_csv files ≠ []) as Hne.
  { intros Hnil. rewrite Hnil in Hin. by apply not_elem_of_nil in Hin. }
  pose proof (run_result files ui (or_intror Hne)) as Hrun. simpl in Hrun.
  rewrite mapM_id_None in Hrun; [done|].
  apply elem_of_missing_coords. split; [done|]. unfold coord. simpl.
  by rewrite lookup_empty.
Qed.

(** * The specification, statement by statement *)

(** C1. For every destination [d] that occurs in the filtered shipments and
    every status type chosen for the map, the map table has exactly one row
    for [d]; its [total] is the number of filtered shipments to [d], its
    [incident] the number of those with the chosen status, and its
    [percent_incident] is incident / total * 100 rounded to 2 decimals: the
    float64 of a whole number [k] of hundredths, where [k / 100] is a
    hundredth nearest to the exact percentage (at most 0.005 away; when the
    exact percentage lies halfway between two hundredths, float64 decides
    which of the two it is). A destination with no shipment of that status
    gets 0, and 3 of 10 (the Chicago example) gives 30.00. The table has
    fewer than 2^32 rows. *)
Theorem C1_map_percent_incident (df : list Shipment) (status_type d : string) :
  Some d ∈ destination <$> df →
  (Z.of_nat (length df) < 2 ^ 32)%Z →
  let t := length (filter (λ s, destination s = Some d) df) in
  let n := length (filter (λ s, destination s = Some d ∧ status s = Some status_type) df) in
  ∃ row p (k : Z),
    filter (λ r, destination_of r = d) (map_table df status_type) = [row]
    ∧ total row = t ∧ incident row = Some n ∧ 0 < t
    ∧ percent_incident row = Some p
    ∧ p = Pandas.round 2 (F64.mul (F64.div (F64.of_nat n) (F64.of_nat t)) 100)
    ∧ (0 ≤ k ≤ 10000)%Z
    ∧ p = F64.fl (inject_Z k / 100)
    ∧ (Qabs (inject_Z k / 100 - Qnat n / Qnat t * 100) <= 1 # 200)%Q
    ∧ (n = 0 → p = 0%Q)
    ∧ (n = 3 → t = 10 → (p == 30)%Q).
Proof.
  intros Hd Hbig t n.
  assert (0 < t) as Ht.
  { apply (group_rows_size_pos Pandas.str_le destination).
    apply elem_of_group_keys. apply list_elem_of_fmap in Hd as (s & ? & ?). eauto. }
  assert (n ≤ t) as Hnt.
  { unfold n, t. rewrite <- destination_rows_status. apply group_rows_status_le. }
  assert (Z.of_nat t < 2 ^ 32)%Z as Htbig.
  { pose proof (length_filter (λ s, destination s = Some d) df) as Hl. fold t in Hl. lia. }
  destruct (percent_rounded n t Hnt Ht Htbig) as (k & Hk & Hp & Hnear).
  exists (map_row df status_type d), (percent n t), k.
  rewrite map_table_at, decide_True by done.
  unfold map_row. simpl. rewrite destination_rows_status. fold n.
  repeat split; try done; try lia.
  - intros ->. apply percent_zero.
  - intros -> ->. apply percent_3_of_10.
Qed.

(** Three Missing shipments out of ten to Chicago: 30.00 %. *)
Lemma C1_map_percent_incident_witness :
  Some "Chicago" ∈ destination <$> three_of_ten
  ∧ (Z.of_nat (length three_of_ten) < 2 ^ 32)%Z
  ∧ ∃ row p,
      filter (λ r, destination_of r = "Chicago") (map_table three_of_ten "Missing") = [row]
      ∧ total row = 10 ∧ incident row = Some 3
      ∧ percent_incident row = Some p ∧ (p == 30)%Q.
Proof.
  assert (Some "Chicago" ∈ destination <$> three_of_ten) as Hin by (by left).
  assert (Z.of_nat (length three_of_ten) < 2 ^ 32)%Z as Hbig by (vm_compute; reflexivity).
  split; [exact Hin|]. split; [exact Hbig|].
  destruct (C1_map_percent_incident three_of_ten "Missing" "Chicago" Hin Hbig)
    as (row & p & k & Hrow & Ht & Hn & _ & Hp & _ & _ & _ & _ & _ & H30).
  exists row, p. repeat split; try done. by apply H30.
Defined.

(** C2, in the form that holds. For a status in {Missing, Damaged} and any grouping key,
    the [count] column of [incident_by_group] (and of [merged]) summed over
    the rows of that status equals the number of filtered shipments with
    that status whose grouping key is not null; it equals the number of all
    filtered shipments with that status when none of them has a null key. *)
Theorem C2_sum_of_group_counts (filtered : list Shipment) (breakdown : column_name)
    (st : string) :
  st ∈ ["Missing"; "Damaged"] →
  let keyed := length (filter (λ s, is_Some (column breakdown s)) (with_status st filtered)) in
  sum_list_with ib_count
    (filter (λ r, ib_status r = st) (incident_by_group breakdown filtered)) = keyed
  ∧ sum_list_with b_count
      (filter (λ r, b_status r = st) (merged breakdown filtered)) = keyed
  ∧ ((∀ s, s ∈ with_status st filtered → is_Some (column breakdown s)) →
     keyed = length (with_status st filtered)).
Proof.
  intros Hst keyed. split; [|split].
  - rewrite incident_by_group_rows, sum_filter_fmap.
    apply (sum_counts_status breakdown filtered st Hst).
  - rewrite merged_rows, sum_filter_fmap.
    apply (sum_counts_status breakdown filtered st Hst).
  - intros Hall. unfold keyed. f_equal.
    induction (with_status st filtered) as [|s l IH]; [done|].
    rewrite filter_cons, decide_True by (apply Hall; left).
    f_equal. apply IH. intros. apply Hall. by right.
Qed.

Lemma C2_sum_of_group_counts_witness :
  "Missing" ∈ ["Missing"; "Damaged"]
  ∧ sum_list_with ib_count
      (filter (λ r, ib_status r = "Missing") (incident_by_group Cdriver_id three_incidents))
    = 2
  ∧ sum_list_with b_count
      (filter (λ r, b_status r = "Missing") (merged Cdriver_id three_incidents)) = 2
  ∧ total_missing three_incidents = 2.
Proof.
  assert ("Missing" ∈ ["Missing"; "Damaged"]) as Hst by left.
  split; [exact Hst|].
  destruct (C2_sum_of_group_counts three_incidents Cdriver_id "Missing" Hst) as (H1 & H2 & _).
  split; [exact H1|]. split; [exact H2|reflexivity].
Defined.

(** C2 as stated fails: a Missing shipment whose vehicle_id is blank is
    counted by [total_missing] and belongs to no group. *)
Lemma C2_null_key_is_not_counted :
  sum_list_with ib_count
    (filter (λ r, ib_status r = "Missing") (incident_by_group Cvehicle_id no_vehicle)) = 0
  ∧ total_missing no_vehicle = 1
  ∧ sum_list_with ib_count
      (filter (λ r, ib_status r = "Missing") (incident_by_group Cvehicle_id no_vehicle))
    ≠ total_missing no_vehicle.
Proof. by vm_compute. Qed.



(** C4, in the form that holds. For a status in {Missing, Damaged}, the grouped table has
    exactly one row for a group and that status when the group has at least
    one filtered shipment of that status, and none otherwise; the row holds
    the count, the size of the group and count / total * 100 rounded to
    2 decimals: the float64 of a whole number [h] of hundredths, where
    [h / 100] is a hundredth nearest to the exact percentage. Groups are
    the non-null values of the grouping key; the table has fewer than 2^32
    rows. *)
Theorem C4_grouped_percentages (filtered : list Shipment) (breakdown : column_name)
    (k st : string) :
  st ∈ ["Missing"; "Damaged"] →
  (Z.of_nat (length filtered) < 2 ^ 32)%Z →
  let n := length (filter (λ s, column breakdown s = Some k ∧ status s = Some st) filtered) in
  let t := length (filter (λ s, column breakdown s = Some k) filtered) in
  ∃ (p : Q) (h : Z),
    filter (λ r, b_key r = k ∧ b_status r = st) (merged breakdown filtered)
    = (if decide (n = 0) then [] else [mkBarRow k st n t p])
    ∧ p = Pandas.round 2 (F64.mul (F64.div (F64.of_nat n) (F64.of_nat t)) 100)
    ∧ (n ≠ 0 →
       (0 ≤ h ≤ 10000)%Z
       ∧ p = F64.fl (inject_Z h / 100)
       ∧ (Qabs (inject_Z h / 100 - Qnat n / Qnat t * 100) <= 1 # 200)%Q).
Proof.
  intros Hst Hbig n t.
  assert (∃ h : Z, n ≠ 0 →
            (0 ≤ h ≤ 10000)%Z
            ∧ percent n t = F64.fl (inject_Z h / 100)
            ∧ (Qabs (inject_Z h / 100 - Qnat n / Qnat t * 100) <= 1 # 200)%Q) as [h Hh].
  { destruct (decide (n = 0)) as [Hn|Hn]; [by exists 0%Z|].
    assert (n ≤ t) as Hnt.
    { unfold n, t.
      rewrite <- (list_filter_filter_l
                    (λ s, column breakdown s = Some k ∧ status s = Some st)
                    (λ s, column breakdown s = Some k)) by tauto.
      apply length_filter. }
    assert (Z.of_nat t < 2 ^ 32)%Z as Htbig.
    { pose proof (length_filter (λ s, column breakdown s = Some k) filtered) as Hl.
      fold t in Hl. lia. }
    destruct (percent_rounded n t) as (h & Hh); [done|lia|done|]. by exists h. }
  exists (percent n t), h. split; [|split; [done|exact Hh]].
  rewrite merged_rows.
  rewrite (filter_fmap_NoDup _ _ (k, st)).
  - pose proof (incident_keys_count breakdown filtered k st Hst) as Hiff. fold n in Hiff.
    destruct (decide (n = 0)) as [Hn|Hn].
    + rewrite decide_False; [done|]. rewrite Hiff. lia.
    + rewrite decide_True by (apply Hiff; lia).
      unfold bar_row. simpl. by rewrite incident_rows.
  - apply NoDup_group_keys.
  - intros [k' st']. simpl. split; [by intros [-> ->]|by intros [= -> ->]].
Qed.

(** One Missing shipment of the two of driver D1: 50.00 %. *)
Lemma C4_grouped_percentages_witness :
  "Missing" ∈ ["Missing"; "Damaged"]
  ∧ (Z.of_nat (length missing_and_delivered) < 2 ^ 32)%Z
  ∧ ∃ p : Q,
      filter (λ r, b_key r = "D1" ∧ b_status r = "Missing")
        (merged Cdriver_id missing_and_delivered)
      = [mkBarRow "D1" "Missing" 1 2 p]
      ∧ (p == 50)%Q.
Proof.
  assert ("Missing" ∈ ["Missing"; "Damaged"]) as Hst by left.
  assert (Z.of_nat (length missing_and_delivered) < 2 ^ 32)%Z as Hbig
    by (vm_compute; reflexivity).
  split; [exact Hst|]. split; [exact Hbig|].
  destruct (C4_grouped_percentages missing_and_delivered Cdriver_id "D1" "Missing" Hst Hbig)
    as (p & h & Hrow & Hp & _).
  exists p. split; [exact Hrow|]. rewrite Hp. by vm_compute.
Defined.

(** C4 as stated fails: driver D1 occurs in the filtered set, but with no
    Missing or Damaged shipment the table has no row for D1. *)
Lemma C4_group_without_incident_has_no_row :
  Some "D1" ∈ driver_id <$> one_delivered
  ∧ merged Cdriver_id one_delivered = []
  ∧ ∀ row, row ∈ merged Cdriver_id one_delivered → b_key row ≠ "D1".
Proof.
  split; [left|]. split; [by vm_compute|].
  intros row Hrow. vm_compute in Hrow. by apply not_elem_of_nil in Hrow.
Qed.

(** C5, in the form that holds. A destination of the filtered shipments that is absent from
    [city_coords] keeps its row in the table given to the map; that row has
    neither latitude nor longitude. *)
Theorem C5_unmapped_destination_has_no_position
    (has_dd : bool) (csv : list Shipment) (sel : option string) (status_type d : string) :
  let filtered := filtered_rows sel (enriched has_dd csv) in
  Some d ∈ destination <$> filtered →
  city_coords !! d = None →
  ∃ row, filter (λ r, destination_of r = d) (map_table filtered status_type) = [row]
         ∧ lat row = None ∧ lon row = None.
Proof.
  intros filtered Hd Hnone. exists (map_row filtered status_type d).
  rewrite map_table_at, decide_True by done.
  split; [done|]. unfold map_row. simpl.
  split; apply first_all_None; intros s [Hs Hin]%list_elem_of_filter;
    apply filtered_rows_subseteq, enriched_coords in Hin as [Hlat Hlon];
    rewrite ?Hlat, ?Hlon, Hs; by apply coord_unmapped.
Qed.

Lemma C5_unmapped_destination_has_no_position_witness :
  Some "Boston" ∈ destination <$> filtered_rows (Some "All") (enriched false [boston])
  ∧ city_coords !! "Boston" = None
  ∧ ∃ row, filter (λ r, destination_of r = "Boston")
             (map_table (filtered_rows (Some "All") (enriched false [boston])) "Missing")
           = [row]
         ∧ lat row = None ∧ lon row = None.
Proof.
  assert (Some "Boston" ∈ destination <$> filtered_rows (Some "All") (enriched false [boston]))
    as Hin by (vm_compute; left).
  assert (city_coords !! "Boston" = None) as Hnone by (vm_compute; reflexivity).
  split; [exact Hin|]. split; [exact Hnone|].
  exact (C5_unmapped_destination_has_no_position false [boston] (Some "All")
           "Missing" "Boston" Hin Hnone).
Defined.

(** C5 as stated fails: Boston is not in [city_coords], and the table of the
    map produced by a run over one Boston shipment has a Boston row. *)
Lemma C5_unmapped_destination_in_map_data :
  city_coords !! "Boston" = None
  ∧ ∃ page w,
      run boston_files all_drivers = inr (0, page, w)
      ∧ ∃ row, row ∈ (map_fig page).2 ∧ destination_of row = "Boston".
Proof.
  split; [by vm_compute|].
  eexists _, _. split; [vm_compute; reflexivity|].
  eexists. split; [left|]. done.
Qed.

(** C6. After enrichment every shipment has [dest_lat] and [dest_lon] both
    null or both present. *)
Theorem C6_coordinates_both_or_neither (has_dd : bool) (csv : list Shipment) (s : Shipment) :
  s ∈ enriched has_dd csv →
  (dest_lat s = None ∧ dest_lon s = None)
  ∨ (is_Some (dest_lat s) ∧ is_Some (dest_lon s)).
Proof.
  intros [-> ->]%enriched_coords. apply coord_both_or_neither.
Qed.

Lemma C6_coordinates_both_or_neither_witness :
  chicago "Missing" ∈ enriched false [chicago "Missing"; boston]
  ∧ ((dest_lat (chicago "Missing") = None ∧ dest_lon (chicago "Missing") = None)
     ∨ (is_Some (dest_lat (chicago "Missing")) ∧ is_Some (dest_lon (chicago "Missing")))).
Proof.
  assert (chicago "Missing" ∈ enriched false [chicago "Missing"; boston]) as Hin
    by (vm_compute; left).
  split; [exact Hin|].
  exact (C6_coordinates_both_or_neither false [chicago "Missing"; boston] _ Hin).
Defined.

(** C7. Every row of the map table whose [total] is positive has a
    [percent_incident] between 0 and 100. *)
Theorem C7_percent_incident_range (df : list Shipment) (status_type : string) (row : MapRow) :
  row ∈ map_table df status_type →
  0 < total row →
  ∃ p, percent_incident row = Some p ∧ (0 <= p)%Q ∧ (p <= 100)%Q.
Proof.
  rewrite map_table_rows. intros (d & -> & Hd)%list_elem_of_fmap Ht.
  unfold map_row in *. simpl in *. eexists. split; [done|].
  apply percent_bounds; [apply group_rows_status_le|done].
Qed.

Lemma C7_percent_incident_range_witness :
  ∃ row, row ∈ map_table three_of_ten "Missing" ∧ 0 < total row
    ∧ ∃ p, percent_incident row = Some p ∧ (0 <= p)%Q ∧ (p <= 100)%Q.
Proof.
  exists (map_row three_of_ten "Missing" "Chicago").
  assert (map_row three_of_ten "Missing" "Chicago" ∈ map_table three_of_ten "Missing")
    as Hin by (vm_compute; left).
  assert (0 < total (map_row three_of_ten "Missing" "Chicago")) as Hpos
    by (vm_compute; lia).
  split; [exact Hin|]. split; [exact Hpos|].
  exact (C7_percent_incident_range _ _ _ Hin Hpos).
Defined.

(** C8. With a driver other than "All" selected, lines 38-119 succeed and
    the page (the three metrics, the status list of the pie, the grouped table,
    the trend table and the map table) is [page_of] the shipments
    whose [driver_id] equals the selection; any other shipments table with the
    same shipments of that driver gives the same page. *)
Theorem C8_only_selected_driver (l : nat) (ui : Sidebar) (b : bool)
    (rows : list Shipment) (w : world) :
  selected_driver ui ≠ Some "All" →
  heap w !! l = Some (ShipmentsF b rows) →
  let own := Pandas.select (λ s, Pandas.eq_cell (driver_id s) (selected_driver ui)) rows in
  let page := page_of own (breakdown_type ui) (map_status_type ui) in
  (∀ s, s ∈ own ↔ s ∈ rows ∧ ∃ d, driver_id s = Some d ∧ selected_driver ui = Some d)
  ∧ (∃ w', render l ui w = inr (page, w'))
  ∧ (∀ l2 b2 rows2 w2,
       heap w2 !! l2 = Some (ShipmentsF b2 rows2) →
       Pandas.select (λ s, Pandas.eq_cell (driver_id s) (selected_driver ui)) rows2 = own →
       ∃ w2', render l2 ui w2 = inr (page, w2')).
Proof.
  intros Hsel Hl own page.
  assert (∀ l2 b2 rows2 w2,
       heap w2 !! l2 = Some (ShipmentsF b2 rows2) →
       Pandas.select (λ s, Pandas.eq_cell (driver_id s) (selected_driver ui)) rows2 = own →
       ∃ w2', render l2 ui w2 = inr (page, w2')) as Hany.
  { intros l2 b2 rows2 w2 Hl2 Hown.
    destruct (render_run l2 ui b2 rows2 w2 Hl2) as [extra ->].
    eexists. do 2 f_equal. unfold dashboard, filtered_rows.
    by rewrite bool_decide_true, Hown by done. }
  split; [|split; [by apply (Hany l b rows w)|done]].
  intros s. unfold own. by rewrite elem_of_select, eq_cell_true.
Qed.

Lemma C8_only_selected_driver_witness :
  selected_driver d1_selected ≠ Some "All"
  ∧ ∃ w', render 0 d1_selected (mkWorld [ShipmentsF true two_drivers] [])
          = inr (page_of (Pandas.select
                            (λ s, Pandas.eq_cell (driver_id s) (selected_driver d1_selected))
                            two_drivers)
                   Cdriver_id "Missing", w').
Proof.
  assert (selected_driver d1_selected ≠ Some "All") as Hsel by (vm_compute; congruence).
  split; [exact Hsel|].
  assert (heap (mkWorld [ShipmentsF true two_drivers] []) !! 0
          = Some (ShipmentsF true two_drivers)) as Hl by reflexivity.
  exact (proj1 (proj2 (C8_only_selected_driver 0 d1_selected true two_drivers _ Hsel Hl))).
Defined.

(** C9 does not hold on this input. One shipment to Chicago and one with a blank
    destination: the blank destination has no coordinates, so a warning is
    due; the run raises TypeError while building its message and shows
    nothing. *)
Theorem C9_blank_destination_stops_the_run :
  None ∈ missing_coords (enriched false (shipments_csv blank_files))
  ∧ run blank_files all_drivers
    = inl Py.TypeError.
Proof. split; [vm_compute; left|by vm_compute]. Qed.

(** C10. Lines 38-119 (the driver filter and every aggregate) succeed and
    leave the object of [shipments_df], and every other object that was in
    the store, as it was: the filter works on a copy and the column
    assignments go to tables made by the merges. *)
Theorem C10_loaded_table_unchanged (l : nat) (ui : Sidebar) (b : bool)
    (rows : list Shipment) (w : world) :
  heap w !! l = Some (ShipmentsF b rows) →
  ∃ page w',
    render l ui w = inr (page, w')
    ∧ heap w' !! l = Some (ShipmentsF b rows)
    ∧ ∀ l' f, heap w !! l' = Some f → heap w' !! l' = Some f.
Proof.
  intros Hl. destruct (render_run l ui b rows w Hl) as [extra ->].
  eexists _, _. split; [done|]. simpl.
  assert (∀ l' f, heap w !! l' = Some f → (heap w ++ extra) !! l' = Some f) as Hold.
  { intros l' f Hf. rewrite lookup_app_l; [done|]. by eapply lookup_lt_Some. }
  split; [by apply Hold|done].
Qed.

Lemma C10_loaded_table_unchanged_witness :
  ∃ page w',
    render 0 d1_selected (mkWorld [ShipmentsF true two_drivers] []) = inr (page, w')
    ∧ heap w' !! 0 = Some (ShipmentsF true two_drivers)
    ∧ ∀ l' f, [ShipmentsF true two_drivers] !! l' = Some f → heap w' !! l' = Some f.
Proof.
  assert (heap (mkWorld [ShipmentsF true two_drivers] []) !! 0
          = Some (ShipmentsF true two_drivers)) as Hl by reflexivity.
  exact (C10_loaded_table_unchanged 0 d1_selected true two_drivers _ Hl).
Defined.

(** * Further properties of the script *)

(** ** The order of group keys *)

Lemma ascii_compare_refl c : Ascii.compare c c = Eq.
Proof. unfold Ascii.compare. apply N.compare_refl. Qed.

Lemma ascii_compare_lt_trans a b c :
  Ascii.compare a b = Lt → Ascii.compare b c = Lt → Ascii.compare a c = Lt.
Proof.
  unfold Ascii.compare. rewrite !N.compare_lt_iff. apply N.lt_trans.
Qed.

Global Instance str_le_trans : Transitive Pandas.str_le.
Proof.
  unfold Pandas.str_le, String.leb.
  intros s1. induction s1 as [|c1 s1 IH]; intros [|c2 s2] [|c3 s3]; simpl; try done.
  destruct (Ascii.compare c1 c2) eqn:E12; try done;
    destruct (Ascii.compare c2 c3) eqn:E23; try done.
  - apply Ascii.compare_eq_iff in E12 as ->. apply Ascii.compare_eq_iff in E23 as ->.
    rewrite ascii_compare_refl. apply IH.
  - apply Ascii.compare_eq_iff in E12 as ->. by rewrite E23.
  - apply Ascii.compare_eq_iff in E23 as <-. by rewrite E12.
  - by rewrite (ascii_compare_lt_trans _ _ _ E12 E23).
Qed.

Global Instance str_le_total : Total Pandas.str_le.
Proof. intros a b. apply String.leb_total. Qed.

Lemma group_keys_sorted {R} (key : R → option string) (df : list R) :
  StronglySorted Pandas.str_le (Pandas.group_keys Pandas.str_le key df).
Proof. unfold Pandas.group_keys. apply StronglySorted_merge_sort; apply _. Qed.

(** ** More on the tables *)

Lemma total_by_group_rows bt df :
  total_by_group bt df
  = (λ k, mkTotalRow k (length (Pandas.group_rows (column bt) df k)))
    <$> Pandas.group_keys Pandas.str_le (column bt) df.
Proof. unfold total_by_group, Pandas.groupby. by rewrite <- list_fmap_compose. Qed.

Lemma sum_list_with_fmap {A B} (c : B → nat) (g : A → B) (l : list A) :
  sum_list_with c (g <$> l) = sum_list_with (c ∘ g) l.
Proof. induction l as [|x l IH]; csimpl; [done|]. by rewrite IH. Qed.

(** X1. [total_by_group] has exactly one row for each distinct non-null value
    of the grouping column; the row's [total] is the number of filtered
    shipments with that key and is positive; the totals add up to the number
    of filtered shipments whose key is not null. *)
Theorem total_by_group_spec (filtered : list Shipment) (breakdown : column_name) :
  let table := total_by_group breakdown filtered in
  NoDup (tb_key <$> table)
  ∧ (∀ k, k ∈ tb_key <$> table ↔ Some k ∈ column breakdown <$> filtered)
  ∧ (∀ row, row ∈ table →
       0 < tb_total row
       ∧ tb_total row
         = length (filter (λ s, column breakdown s = Some (tb_key row)) filtered))
  ∧ sum_list_with tb_total table
    = length (filter (λ s, is_Some (column breakdown s)) filtered).
Proof.
  intros table. unfold table. rewrite total_by_group_rows.
  rewrite <- list_fmap_compose.
  assert ((tb_key ∘ λ k, mkTotalRow k (length (Pandas.group_rows (column breakdown) filtered k)))
          <$> Pandas.group_keys Pandas.str_le (column breakdown) filtered
          = Pandas.group_keys Pandas.str_le (column breakdown) filtered) as ->.
  { rewrite <- (list_fmap_id (Pandas.group_keys _ _ _)) at 2. by apply list_fmap_ext. }
  split; [apply NoDup_group_keys|].
  split; [|split].
  - intros k. rewrite elem_of_group_keys, list_elem_of_fmap.
    split; intros (s & ? & ?); exists s; split; done.
  - intros row (k & -> & Hk)%list_elem_of_fmap. simpl. split; [|done].
    by apply (group_rows_size_pos Pandas.str_le).
  - rewrite sum_list_with_fmap. apply (sum_sizes_cover (column breakdown)).
    + apply NoDup_group_keys.
    + intros s k ??. apply elem_of_group_keys. eauto.
Qed.

Lemma incident_rows_le bt df k st :
  length (filter (λ s, column bt s = Some k ∧ status s = Some st) df)
  ≤ length (filter (λ s, column bt s = Some k) df).
Proof.
  rewrite <- (list_filter_filter_l (λ s, column bt s = Some k ∧ status s = Some st)
                (λ s, column bt s = Some k)) by tauto.
  apply length_filter.
Qed.

(** X2. Every row of the grouped table [merged] is for the status Missing or
    Damaged, counts at least one shipment and at most the size of its group,
    and its [percent] lies between 0 and 100. *)
Theorem merged_row_bounds (filtered : list Shipment) (breakdown : column_name)
    (row : BarRow) :
  row ∈ merged breakdown filtered →
  b_status row ∈ ["Missing"; "Damaged"]
  ∧ 1 ≤ b_count row ∧ b_count row ≤ b_total row
  ∧ (0 <= b_percent row)%Q ∧ (b_percent row <= 100)%Q.
Proof.
  rewrite merged_rows. intros ([k st] & -> & Hks)%list_elem_of_fmap.
  pose proof Hks as (Hst & _)%elem_of_incident_keys.
  assert (0 < length (Pandas.group_rows (incident_key breakdown) (incidents_only filtered)
                        (k, st))) as Hpos
    by (by apply (group_rows_size_pos Pandas.pair_le)).
  assert (length (Pandas.group_rows (incident_key breakdown) (incidents_only filtered) (k, st))
          ≤ length (Pandas.group_rows (column breakdown) filtered k)) as Hle
    by (rewrite incident_rows by done; apply incident_rows_le).
  unfold bar_row. simpl. split; [done|]. split; [lia|]. split; [done|].
  apply percent_bounds; lia.
Qed.

Lemma merged_row_bounds_witness :
  mkBarRow "D1" "Missing" 1 2 (percent 1 2)
    ∈ merged Cdriver_id missing_and_delivered
  ∧ (0 <= percent 1 2)%Q
  ∧ (percent 1 2 <= 100)%Q.
Proof.
  assert (mkBarRow "D1" "Missing" 1 2 (percent 1 2)
            ∈ merged Cdriver_id missing_and_delivered) as Hin by (vm_compute; left).
  split; [exact Hin|].
  exact (proj2 (proj2 (proj2 (merged_row_bounds _ _ _ Hin)))).
Defined.

(** X3. In the map table the [total] column adds up to the number of filtered
    shipments that have a destination, and the [incident] column to the number
    of those with the chosen status; the destinations are distinct and in
    ascending order, and no row has more incidents than shipments. *)
Theorem map_table_sums (filtered_df : list Shipment) (status_type : string) :
  let table := map_table filtered_df status_type in
  NoDup (destination_of <$> table)
  ∧ StronglySorted Pandas.str_le (destination_of <$> table)
  ∧ sum_list_with total table
    = length (filter (λ s, is_Some (destination s)) filtered_df)
  ∧ sum_list_with (λ r, default 0 (incident r)) table
    = length (filter (λ s, is_Some (destination s)) (with_status status_type filtered_df))
  ∧ ∀ row, row ∈ table → default 0 (incident row) ≤ total row.
Proof.
  intros table. unfold table. rewrite map_table_rows, <- list_fmap_compose.
  assert ((destination_of ∘ map_row filtered_df status_type)
          <$> Pandas.group_keys Pandas.str_le destination filtered_df
          = Pandas.group_keys Pandas.str_le destination filtered_df) as ->.
  { rewrite <- (list_fmap_id (Pandas.group_keys _ _ _)) at 2. by apply list_fmap_ext. }
  split; [apply NoDup_group_keys|]. split; [apply group_keys_sorted|].
  rewrite !sum_list_with_fmap. split; [|split].
  - apply (sum_sizes_cover destination); [apply NoDup_group_keys|].
    intros s k ??. apply elem_of_group_keys. eauto.
  - apply (sum_sizes_cover destination); [apply NoDup_group_keys|].
    intros s k [Hs _]%elem_of_select ?. apply elem_of_group_keys. eauto.
  - intros row (d & -> & _)%list_elem_of_fmap. simpl. apply group_rows_status_le.
Qed.

Lemma first_all_Some {A B} (f : A → option B) (l : list A) (b : B) :
  l ≠ [] → (∀ x, x ∈ l → f x = Some b) → Pandas.first (f <$> l) = Some b.
Proof.
  destruct l as [|x l]; [done|]. intros _ Hf.
  rewrite fmap_cons. simpl. by rewrite (Hf x) by left.
Qed.

(** X4. A destination of the filtered shipments that is a key of [city_coords]
    has one row in the map table, and the row carries the latitude and the
    longitude of that city. *)
Theorem mapped_destination_position
    (has_dd : bool) (csv : list Shipment) (sel : option string) (status_type d : string)
    (city : gmap string Q) :
  let filtered := filtered_rows sel (enriched has_dd csv) in
  Some d ∈ destination <$> filtered →
  city_coords !! d = Some city →
  ∃ row, filter (λ r, destination_of r = d) (map_table filtered status_type) = [row]
         ∧ lat row = city !! "lat" ∧ lon row = city !! "lon"
         ∧ is_Some (lat row) ∧ is_Some (lon row).
Proof.
  intros filtered Hd Hcity. exists (map_row filtered status_type d).
  rewrite map_table_at, decide_True by done. split; [done|].
  destruct (city_coords_complete d city Hcity) as [[la Hla] [lo Hlo]].
  assert (Pandas.group_rows destination filtered d ≠ []) as Hne.
  { apply list_elem_of_fmap in Hd as (s & Hs & Hin).
    apply (elem_of_not_nil s). by apply list_elem_of_filter. }
  assert (lat (map_row filtered status_type d) = Some la) as Hlat.
  { unfold map_row. simpl. apply first_all_Some; [done|].
    intros s [Hs Hin]%list_elem_of_filter.
    apply filtered_rows_subseteq, enriched_coords in Hin as [-> _].
    rewrite Hs. unfold coord. simpl. by rewrite Hcity. }
  assert (lon (map_row filtered status_type d) = Some lo) as Hlon.
  { unfold map_row. simpl. apply first_all_Some; [done|].
    intros s [Hs Hin]%list_elem_of_filter.
    apply filtered_rows_subseteq, enriched_coords in Hin as [_ ->].
    rewrite Hs. unfold coord. simpl. by rewrite Hcity. }
  rewrite Hlat, Hlon, Hla, Hlo. eauto.
Qed.

Lemma mapped_destination_position_witness :
  Some "Chicago" ∈ destination <$> filtered_rows (Some "D1") (enriched false two_drivers)
  ∧ ∃ row, filter (λ r, destination_of r = "Chicago")
             (map_table (filtered_rows (Some "D1") (enriched false two_drivers)) "Missing")
           = [row]
         ∧ lat row = Some 41.8781%Q ∧ lon row = Some (-87.6298)%Q.
Proof.
  assert (Some "Chicago" ∈ destination <$> filtered_rows (Some "D1") (enriched false two_drivers))
    as Hin by (vm_compute; left).
  assert (city_coords !! "Chicago"
          = Some ({[ "lat" := 41.8781%Q; "lon" := (-87.6298)%Q ]} : gmap string Q)) as Hc
    by (vm_compute; reflexivity).
  split; [exact Hin|].
  destruct (mapped_destination_position false two_drivers (Some "D1") "Missing" "Chicago"
              _ Hin Hc) as (row & Hrow & Hlat & Hlon & _).
  exists row. split; [exact Hrow|]. split; [exact Hlat|exact Hlon].
Defined.

(** ** More on the trend, the filter and the run *)

Lemma trend_data_rows df :
  trend_data df
  = (λ d, mkTrendRow d (length (Pandas.group_rows delivery_date (with_status "Missing" df) d)))
    <$> Pandas.group_keys Pandas.date_le delivery_date (with_status "Missing" df).
Proof. unfold trend_data, Pandas.groupby. by rewrite <- list_fmap_compose. Qed.

Lemma enriched_derived_date csv s :
  s ∈ enriched false csv → delivery_date s = dt_date (delivery_time s).
Proof.
  unfold enriched, add_dest_lon, add_dest_lat, add_delivery_date.
  intros (s2 & -> & (s1 & -> & (s0 & -> & _)%list_elem_of_fmap)%list_elem_of_fmap)
    %list_elem_of_fmap.
  done.
Qed.

Lemma trend_sum df :
  sum_list_with tr_count (trend_data df)
  = length (filter (λ s, is_Some (delivery_date s)) (with_status "Missing" df)).
Proof.
  rewrite trend_data_rows, sum_list_with_fmap.
  apply (sum_sizes_cover delivery_date); [apply NoDup_group_keys|].
  intros s k ??. apply elem_of_group_keys. eauto.
Qed.

(** X5. [trend_data] has one row per distinct non-null delivery date of the
    Missing shipments; its count is the number of Missing shipments of that
    date and is positive, and the counts add up to the number of Missing
    shipments that have a delivery date. *)
Theorem trend_data_spec (filtered : list Shipment) :
  let missing := with_status "Missing" filtered in
  let table := trend_data filtered in
  NoDup (tr_delivery_date <$> table)
  ∧ (∀ d, d ∈ tr_delivery_date <$> table ↔ Some d ∈ delivery_date <$> missing)
  ∧ (∀ row, row ∈ table →
       0 < tr_count row
       ∧ tr_count row
         = length (filter (λ s, delivery_date s = Some (tr_delivery_date row)) missing))
  ∧ sum_list_with tr_count table
    = length (filter (λ s, is_Some (delivery_date s)) missing).
Proof.
  intros missing table. unfold table.
  split; [|split; [|split; [|apply trend_sum]]].
  - rewrite trend_data_rows, <- list_fmap_compose.
    assert (∀ ks : list (string + Z),
              (tr_delivery_date ∘ λ d, mkTrendRow d
                 (length (Pandas.group_rows delivery_date (with_status "Missing" filtered) d)))
              <$> ks = ks) as ->
      by (intros; rewrite <- (list_fmap_id ks) at 2; by apply list_fmap_ext).
    apply NoDup_group_keys.
  - intros d. rewrite trend_data_rows, <- list_fmap_compose.
    assert (∀ ks : list (string + Z),
              (tr_delivery_date ∘ λ d, mkTrendRow d
                 (length (Pandas.group_rows delivery_date (with_status "Missing" filtered) d)))
              <$> ks = ks) as ->
      by (intros; rewrite <- (list_fmap_id ks) at 2; by apply list_fmap_ext).
    rewrite elem_of_group_keys, list_elem_of_fmap.
    split; intros (s & ? & ?); exists s; split; done.
  - rewrite trend_data_rows.
    intros row (d & -> & Hd)%list_elem_of_fmap. simpl. split; [|done].
    by apply (group_rows_size_pos Pandas.date_le).
Qed.

(** X6. When the CSV has no [delivery_date] column, the dates of the trend
    are derived from [delivery_time]: the counts of the trend add up to the
    number of filtered Missing shipments that have a delivery time, so a
    Missing shipment without one is in no row. *)
Theorem trend_counts_delivered_only (csv : list Shipment) (sel : option string) :
  let filtered := filtered_rows sel (enriched false csv) in
  sum_list_with tr_count (trend_data filtered)
  = length (filter (λ s, is_Some (delivery_time s)) (with_status "Missing" filtered)).
Proof.
  intros filtered. rewrite trend_sum. f_equal.
  assert (∀ l : list Shipment, (∀ s, s ∈ l → delivery_date s = dt_date (delivery_time s)) →
            filter (λ s, is_Some (delivery_date s)) l
            = filter (λ s, is_Some (delivery_time s)) l) as Hext.
  { induction l as [|s l IH]; intros Hl; [done|].
    rewrite !filter_cons, IH by (intros; apply Hl; by right).
    rewrite (Hl s) by left.
    destruct (decide (is_Some (dt_date (delivery_time s)))) as [H1|H1],
      (decide (is_Some (delivery_time s))) as [H2|H2]; try done; exfalso.
    - destruct H1 as [d Hd]. unfold dt_date in Hd.
      destruct (delivery_time s); [apply H2; eauto|done].
    - destruct H2 as [t Ht]. apply H1. rewrite Ht. simpl. eauto. }
  apply Hext. intros s [Hs _]%elem_of_select.
  by apply filtered_rows_subseteq, enriched_derived_date in Hs.
Qed.

(** ** More on the filter *)

Lemma select_eq_cell_None (rows : list Shipment) :
  Pandas.select (λ s, Pandas.eq_cell (driver_id s) None) rows = [].
Proof.
  apply elem_of_nil_inv. intros s [_ Hs]%elem_of_select.
  unfold Pandas.eq_cell in Hs. by destruct (driver_id s).
Qed.

(** X7. With "All" selected in the driver box, lines 38-119 succeed and the
    page is computed from every shipment of [shipments_df]. *)
Theorem all_drivers_page (l : nat) (ui : Sidebar) (b : bool) (rows : list Shipment)
    (w : world) :
  selected_driver ui = Some "All" →
  heap w !! l = Some (ShipmentsF b rows) →
  ∃ w', render l ui w = inr (page_of rows (breakdown_type ui) (map_status_type ui), w').
Proof.
  intros Hsel Hl. destruct (render_run l ui b rows w Hl) as [extra ->].
  eexists. do 2 f_equal. unfold dashboard, filtered_rows.
  by rewrite Hsel, bool_decide_false by (by intros []).
Qed.

Lemma all_drivers_page_witness :
  selected_driver all_drivers = Some "All"
  ∧ ∃ w', render 0 all_drivers (mkWorld [ShipmentsF true two_drivers] [])
          = inr (page_of two_drivers Cdriver_id "Missing", w').
Proof.
  assert (selected_driver all_drivers = Some "All") as Hsel by reflexivity.
  split; [exact Hsel|].
  assert (heap (mkWorld [ShipmentsF true two_drivers] []) !! 0
          = Some (ShipmentsF true two_drivers)) as Hl by reflexivity.
  exact (all_drivers_page 0 all_drivers true two_drivers _ Hsel Hl).
Defined.

(** X8. The driver box offers NaN when a shipment has a blank [driver_id];
    with NaN selected no shipment passes the filter (NaN equals nothing, itself
    included), the shipments with a blank driver too: both counts are 0, the
    transit metric is "N/A" and every table computed for the charts is empty. *)
Theorem nan_driver_page (rows : list Shipment) (ui : Sidebar) :
  selected_driver ui = None →
  (None ∈ driver_options rows ↔ None ∈ driver_id <$> rows)
  ∧ filtered_rows (selected_driver ui) rows = []
  ∧ dashboard rows ui
    = mkDashboard 0 "N/A" 0 [] [] []
        ("🌍 % of " +:+ map_status_type ui +:+ " Shipments by Destination", []).
Proof.
  intros Hsel.
  assert (filtered_rows (selected_driver ui) rows = []) as Hnil.
  { unfold filtered_rows. by rewrite Hsel, bool_decide_true, select_eq_cell_None. }
  split; [|split; [done|]].
  - unfold driver_options. rewrite elem_of_cons, elem_of_unique.
    split; [by intros [|]|by right].
  - unfold dashboard. rewrite Hnil. by destruct (breakdown_type ui).
Qed.

Lemma nan_driver_page_witness :
  selected_driver nan_selected = None
  ∧ None ∈ driver_options (blank_driver :: two_drivers)
  ∧ dashboard (blank_driver :: two_drivers) nan_selected
    = mkDashboard 0 "N/A" 0 [] [] [] ("🌍 % of Damaged Shipments by Destination", []).
Proof.
  assert (selected_driver nan_selected = None) as Hsel by reflexivity.
  split; [exact Hsel|].
  destruct (nan_driver_page (blank_driver :: two_drivers) nan_selected Hsel)
    as (Hopt & _ & Hpage).
  split; [apply Hopt; left|exact Hpage].
Defined.

(** X9. The driver box offers every [driver_id] of the table. Selecting an
    offered driver id other than "All" keeps exactly the shipments of that
    driver, in their order, and at least one of them. *)
Theorem driver_option_filter (rows : list Shipment) (d : string) :
  Some d ∈ driver_options rows →
  d ≠ "All" →
  (∀ s, s ∈ rows → driver_id s ∈ driver_options rows)
  ∧ filtered_rows (Some d) rows = filter (λ s, driver_id s = Some d) rows
  ∧ filtered_rows (Some d) rows ≠ [].
Proof.
  intros Hd Hne. unfold driver_options in *. split.
  { intros s Hs. right. apply elem_of_unique. by apply list_elem_of_fmap_2. }
  assert (filtered_rows (Some d) rows = filter (λ s, driver_id s = Some d) rows) as Heq.
  { unfold filtered_rows. rewrite bool_decide_true by congruence.
    unfold Pandas.select. apply list_filter_iff. intros s.
    rewrite eq_cell_true. split; [by intros (d' & -> & [= ->])|eauto]. }
  split; [done|]. rewrite Heq.
  apply elem_of_cons in Hd as [[= ->]|Hd]; [done|].
  apply elem_of_unique, list_elem_of_fmap in Hd as (s & Hs & Hin).
  apply (elem_of_not_nil s). by apply list_elem_of_filter.
Qed.

Lemma driver_option_filter_witness :
  Some "D2" ∈ driver_options two_drivers
  ∧ "D2" ≠ "All"
  ∧ filtered_rows (Some "D2") two_drivers = filter (λ s, driver_id s = Some "D2") two_drivers
  ∧ filtered_rows (Some "D2") two_drivers ≠ [].
Proof.
  assert (Some "D2" ∈ driver_options two_drivers) as Hin
    by (vm_compute; right; right; left).
  assert ("D2" ≠ "All") as Hne by (intros [=]).
  split; [exact Hin|]. split; [exact Hne|].
  exact (proj2 (driver_option_filter two_drivers "D2" Hin Hne)).
Defined.

(** ** More on the run *)

(** A run that has passed line 13. *)
Lemma run_succeeds_has_dates files ui l page w :
  run files ui = inr (l, page, w) →
  shipments_has_delivery_date files = true ∨ shipments_csv files ≠ [].
Proof.
  intros Hrun. destruct (shipments_has_delivery_date files) eqn:Hdd; [by left|].
  right. intros Hnil. by rewrite (run_empty files ui Hdd Hnil) in Hrun.
Qed.

(** X10. A run over a file that has neither rows nor a [delivery_date]
    column stops with AttributeError at line 13; a run over a file with a
    blank destination stops with TypeError at line 29. A run that reaches
    the end has met neither case; it returns the page of the enriched
    shipments, the first object of the store is the enriched table, and at
    most one warning was shown. *)
Theorem run_outcome (files : Files) (ui : Sidebar) :
  let csv := shipments_csv files in
  let rows := enriched (shipments_has_delivery_date files) csv in
  (shipments_has_delivery_date files = false → csv = [] →
   run files ui = inl Py.AttributeError)
  ∧ (None ∈ destination <$> csv → run files ui = inl Py.TypeError)
  ∧ (∀ l page w, run files ui = inr (l, page, w) →
       (shipments_has_delivery_date files = true ∨ csv ≠ [])
       ∧ (None ∉ destination <$> csv)
       ∧ l = 0 ∧ page = dashboard rows ui
       ∧ heap w !! 0 = Some (ShipmentsF true rows)
       ∧ length (banners w) ≤ 1).
Proof.
  intros csv rows. split; [apply run_empty|]. split; [apply blank_destination_raises|].
  intros l page w Hrun.
  pose proof (run_succeeds_has_dates _ _ _ _ _ Hrun) as Hdt. split; [done|].
  assert (None ∉ destination <$> csv) as Hin.
  { intros Hin. by rewrite (blank_destination_raises files ui Hin) in Hrun. }
  split; [done|].
  pose proof (run_result files ui Hdt) as Hres. simpl in Hres. fold csv rows in Hres.
  destruct (mapM_id_Some (missing_coords rows)) as (names & _ & Hm).
  { by intros [? _]%elem_of_missing_coords. }
  rewrite Hm in Hres. destruct Hres as [extra Hres]. rewrite Hres in Hrun.
  injection Hrun as <- <- <-. split; [done|]. split; [done|]. split; [done|].
  simpl. destruct names; simpl; lia.
Qed.

Lemma unmapped_destinations (l : list Shipment) :
  (∀ s, s ∈ l → dest_lat s = coord "lat" (destination s)) →
  destination <$> filter (λ s, Pandas.isna (dest_lat s) = true) l
  = filter (λ x, coord "lat" x = None) (destination <$> l).
Proof.
  induction l as [|s l IH]; intros Hc; [done|].
  rewrite fmap_cons, !filter_cons.
  rewrite <- IH by (intros; apply Hc; by right).
  rewrite <- (Hc s) by left.
  destruct (decide (Pandas.isna (dest_lat s) = true)) as [H1|H1],
    (decide (dest_lat s = None)) as [H2|H2]; try done; exfalso.
  - unfold Pandas.isna, Pandas.notnull in H1. by destruct (dest_lat s).
  - apply H1. by rewrite H2.
Qed.

(** X11. A run that reaches the end has shown no banner if every destination
    is a key of [city_coords], and otherwise exactly one: "Missing
    coordinates for: " followed by the distinct unmapped destinations, each
    once, in order of first appearance, separated by ", ". *)
Theorem warning_text (files : Files) (ui : Sidebar) (l : nat) (page : Dashboard)
    (w : world) :
  let csv := shipments_csv files in
  run files ui = inr (l, page, w) →
  ∃ names,
    Some <$> names
    = Pandas.unique (filter (λ x, coord "lat" x = None) (destination <$> csv))
    ∧ (∀ d, d ∈ names ↔ Some d ∈ destination <$> csv ∧ city_coords !! d = None)
    ∧ (names = [] → banners w = [])
    ∧ (names ≠ [] →
       banners w = ["Missing coordinates for: " +:+ Py.join_str ", " names]).
Proof.
  intros csv Hrun.
  pose proof (run_succeeds_has_dates _ _ _ _ _ Hrun) as Hdt.
  assert (None ∉ destination <$> csv) as Hdest.
  { intros Hin. by rewrite (blank_destination_raises files ui Hin) in Hrun. }
  destruct (warning_banner files ui Hdt Hdest)
    as (page' & w' & names & Hrun' & Hm & _ & Hin & Hb).
  rewrite Hrun' in Hrun. injection Hrun as <- <- <-.
  exists names. split; [|split; [done|]].
  - rewrite <- Hm. unfold missing_coords, Pandas.select. f_equal.
    rewrite <- (enriched_destinations (shipments_has_delivery_date files) csv).
    apply unmapped_destinations. intros s Hs. by apply enriched_coords in Hs as [? _].
  - rewrite Hb. by destruct names.
Qed.

(** One shipment to Boston, one to Chicago: the banner names Boston. *)
Lemma warning_text_witness :
  ∃ page w,
    run (mkFiles false [boston; chicago "Delivered"] [] [] []) all_drivers = inr (0, page, w)
    ∧ banners w = ["Missing coordinates for: Boston"].
Proof.
  destruct (run (mkFiles false [boston; chicago "Delivered"] [] [] []) all_drivers)
    as [e|[[l page] w]] eqn:Hrun; [by vm_compute in Hrun|].
  destruct (warning_text _ _ _ _ _ Hrun) as (names & Hn & _ & _ & Hb).
  assert (l = 0) as -> by (vm_compute in Hrun; congruence).
  exists page, w. split; [reflexivity|].
  vm_compute in Hn. destruct names as [|n [|n' names]]; try done.
  injection Hn as ->. by apply Hb.
Defined.

(** X12. Lines 11-24 on a table that has neither rows nor a [delivery_date]
    column raise AttributeError. On any other table they write the derived
    columns into the object of [shipments_df] itself: afterwards that object
    holds the enriched rows, no object was added to the store, every other
    object is as before and no banner was shown. *)
Theorem add_columns_in_place (l : nat) (has_dd : bool) (rows : list Shipment) (w : world) :
  heap w !! l = Some (ShipmentsF has_dd rows) →
  if bool_decide (has_dd = false ∧ rows = [])
  then add_columns l w = inl Py.AttributeError
  else ∃ w', add_columns l w = inr ((), w')
        ∧ heap w' !! l = Some (ShipmentsF true (enriched has_dd rows))
        ∧ length (heap w') = length (heap w)
        ∧ (∀ l', l' ≠ l → heap w' !! l' = heap w !! l')
        ∧ banners w' = banners w.
Proof.
  intros Hl. case_bool_decide as Hdt.
  { destruct Hdt as [-> ->]. by apply add_columns_raises. }
  rewrite (add_columns_run l has_dd rows w Hl).
  2:{ destruct has_dd; [by left|]. right. intros ->. by apply Hdt. }
  eexists. split; [done|].
  simpl. split; [|split; [|split; [|done]]].
  - apply list_lookup_insert_eq. by eapply lookup_lt_Some.
  - apply length_insert.
  - intros l' Hne. by apply list_lookup_insert_ne.
Qed.

Lemma add_columns_in_place_witness :
  (∃ w', add_columns 0 (mkWorld [ShipmentsF false two_drivers; ReferenceF []] []) = inr ((), w')
        ∧ heap w' !! 0 = Some (ShipmentsF true (enriched false two_drivers))
        ∧ length (heap w') = 2)
  ∧ add_columns 0 (mkWorld [ShipmentsF false []] []) = inl Py.AttributeError.
Proof.
  assert (heap (mkWorld [ShipmentsF false two_drivers; ReferenceF []] []) !! 0
          = Some (ShipmentsF false two_drivers)) as Hl by reflexivity.
  assert (heap (mkWorld [ShipmentsF false []] []) !! 0 = Some (ShipmentsF false [])) as Hl'
    by reflexivity.
  split; [|exact (add_columns_in_place 0 false [] _ Hl')].
  destruct (add_columns_in_place 0 false two_drivers _ Hl) as (w' & Hrun & Hat & Hlen & _).
  exists w'. split; [exact Hrun|]. split; [exact Hat|exact Hlen].
Defined.

(** X16. The warning and the enriched table do not depend on the sidebar: two
    runs over the same files with different selections both raise, or both
    succeed with the same banners and the same object of [shipments_df]; the
    warning also names unmapped destinations of drivers that are filtered out. *)
Theorem warning_ignores_sidebar (files : Files) (ui1 ui2 : Sidebar) :
  match run files ui1, run files ui2 with
  | inl e1, inl e2 => e1 = e2
  | inr (l1, _, w1), inr (l2, _, w2) =>
      l1 = l2 ∧ banners w1 = banners w2 ∧ heap w1 !! l1 = heap w2 !! l2
  | _, _ => False
  end.
Proof.
  destruct (decide (shipments_has_delivery_date files = true ∨ shipments_csv files ≠ []))
    as [Hdt|Hdt].
  2:{ destruct (shipments_has_delivery_date files) eqn:Hdd; [destruct Hdt; by left|].
      destruct (shipments_csv files) as [|r csv] eqn:Hcsv; [|destruct Hdt; by right].
      by rewrite !run_empty. }
  pose proof (run_result files ui1 Hdt) as H1. pose proof (run_result files ui2 Hdt) as H2.
  simpl in H1, H2.
  destruct (mapM id (missing_coords
              (enriched (shipments_has_delivery_date files) (shipments_csv files))))
    as [names|].
  - destruct H1 as [extra1 ->], H2 as [extra2 ->]. done.
  - by rewrite H1, H2.
Qed.

(** ** The order of the grouped table and the two counts *)

Lemma str_le_antisym a b : Pandas.str_le a b → Pandas.str_le b a → a = b.
Proof. unfold Pandas.str_le. apply String.leb_antisym. Qed.

Global Instance pair_le_total : Total Pandas.pair_le.
Proof.
  intros a b. unfold Pandas.pair_le.
  destruct (decide (a.1 = b.1)) as [Heq|Hne].
  - rewrite decide_True by done. apply str_le_total.
  - rewrite decide_False by congruence. apply str_le_total.
Qed.

Global Instance pair_le_trans : Transitive Pandas.pair_le.
Proof.
  intros a b c. unfold Pandas.pair_le.
  destruct (decide (a.1 = b.1)) as [Hab|Hab], (decide (b.1 = c.1)) as [Hbc|Hbc].
  - rewrite decide_True by congruence. apply str_le_trans.
  - rewrite decide_False by congruence. by rewrite Hab.
  - rewrite decide_False by congruence. by rewrite <- Hbc.
  - intros H1 H2. destruct (decide (a.1 = c.1)) as [Hac|Hac].
    + destruct Hab. apply str_le_antisym; [done|]. by rewrite Hac.
    + by trans (b.1).
Qed.

Lemma sorted_lookup_lt {A} (R : relation A) (l : list A) (a b : nat) (x y : A) :
  StronglySorted R l → l !! a = Some x → l !! b = Some y → a < b → R x y.
Proof.
  intros Hsorted Ha Hb Hab.
  pose proof (StronglySorted_app_1_elem_of R (take b l) (drop b l) x y) as Hle.
  rewrite take_drop in Hle. apply Hle; [done| |].
  - apply list_elem_of_lookup. exists a. by rewrite lookup_take_lt by lia.
  - apply list_elem_of_lookup. exists 0. by rewrite lookup_drop, Nat.add_0_r.
Qed.

(** X14. No (group, status) pair occurs twice in the grouped table, and when
    a group has a Damaged row and a Missing row, the Missing row comes right
    after the Damaged one. *)
Theorem merged_groups_adjacent (filtered : list Shipment) (breakdown : column_name) :
  let pairs := (λ r, (b_key r, b_status r)) <$> merged breakdown filtered in
  NoDup pairs
  ∧ ∀ i j r1 r2,
      merged breakdown filtered !! i = Some r1 →
      merged breakdown filtered !! j = Some r2 →
      b_key r1 = b_key r2 → b_status r1 = "Damaged" → b_status r2 = "Missing" → j = S i.
Proof.
  intros pairs.
  assert (pairs = incident_keys breakdown filtered) as Hpairs.
  { unfold pairs. rewrite merged_rows, <- list_fmap_compose.
    rewrite <- (list_fmap_id (incident_keys _ _)) at 2.
    apply list_fmap_ext. by intros _ [k st] _. }
  assert (NoDup pairs) as Hnd by (rewrite Hpairs; apply NoDup_group_keys).
  assert (StronglySorted Pandas.pair_le pairs) as Hsorted.
  { rewrite Hpairs. unfold incident_keys, Pandas.group_keys.
    apply StronglySorted_merge_sort; apply _. }
  split; [done|].
  intros i j r1 r2 Hi Hj Hkey Hd Hm.
  assert (pairs !! i = Some (b_key r1, "Damaged")) as Hpi
    by (unfold pairs; by rewrite list_lookup_fmap, Hi, <- Hd).
  assert (pairs !! j = Some (b_key r1, "Missing")) as Hpj
    by (unfold pairs; by rewrite list_lookup_fmap, Hj, <- Hm, Hkey).
  assert (i < j) as Hlt.
  { destruct (Nat.lt_trichotomy i j) as [Hlt|[->|Hgt]]; [done| |].
    - rewrite Hpi in Hpj. done.
    - exfalso.
      pose proof (sorted_lookup_lt _ _ _ _ _ _ Hsorted Hpj Hpi Hgt) as Habs.
      unfold Pandas.pair_le in Habs. by rewrite decide_True in Habs by done. }
  destruct (decide (j = S i)) as [|Hne]; [done|]. exfalso.
  destruct (lookup_lt_is_Some_2 pairs (S i)) as [[k' st'] Hmid].
  { apply lookup_lt_Some in Hpj. lia. }
  pose proof (sorted_lookup_lt _ _ _ _ _ _ Hsorted Hpi Hmid (Nat.lt_succ_diag_r i)) as H1.
  pose proof (sorted_lookup_lt _ _ _ _ _ _ Hsorted Hmid Hpj) as H2.
  specialize (H2 ltac:(lia)).
  assert ((k', st') ∈ incident_keys breakdown filtered) as Hin.
  { rewrite <- Hpairs. by eapply list_elem_of_lookup_2. }
  apply elem_of_incident_keys in Hin as [Hst _].
  unfold Pandas.pair_le in H1, H2. simpl in H1, H2.
  destruct (decide (b_key r1 = k')) as [<-|Hk].
  - rewrite decide_True in H2 by done.
    apply elem_of_cons in Hst as [->|Hst].
    + pose proof (NoDup_lookup _ _ _ _ Hnd Hmid Hpj). lia.
    + apply elem_of_cons in Hst as [->|Hst]; [|by apply not_elem_of_nil in Hst].
      pose proof (NoDup_lookup _ _ _ _ Hnd Hmid Hpi). lia.
  - rewrite decide_False in H2 by done. apply Hk. by apply str_le_antisym.
Qed.

Lemma merged_groups_adjacent_witness :
  merged Cdriver_id two_incidents_one_driver !! 0
    = Some (mkBarRow "D1" "Damaged" 1 2 (percent 1 2))
  ∧ merged Cdriver_id two_incidents_one_driver !! 1
    = Some (mkBarRow "D1" "Missing" 1 2 (percent 1 2))
  ∧ 1 = 1.
Proof.
  assert (merged Cdriver_id two_incidents_one_driver !! 0
          = Some (mkBarRow "D1" "Damaged" 1 2 (percent 1 2)))
    as H0 by (by vm_compute).
  assert (merged Cdriver_id two_incidents_one_driver !! 1
          = Some (mkBarRow "D1" "Missing" 1 2 (percent 1 2)))
    as H1 by (by vm_compute).
  split; [exact H0|]. split; [exact H1|].
  exact (proj2 (merged_groups_adjacent two_incidents_one_driver Cdriver_id)
           0 1 _ _ H0 H1 eq_refl eq_refl eq_refl).
Defined.

Lemma length_filter_disjoint {A} (P Q : A → Prop)
    `{∀ x, Decision (P x)} `{∀ x, Decision (Q x)} (l : list A) :
  (∀ x, P x → Q x → False) →
  length (filter P l) + length (filter Q l) = length (filter (λ x, P x ∨ Q x) l).
Proof.
  intros Hdis. induction l as [|x l IH]; [done|].
  rewrite !filter_cons.
  destruct (decide (P x)), (decide (Q x)), (decide (P x ∨ Q x));
    simpl; try lia; exfalso; intuition eauto.
Qed.

Lemma incidents_only_filter df :
  incidents_only df
  = filter (λ s, status s = Some "Missing" ∨ status s = Some "Damaged") df.
Proof.
  unfold incidents_only, Pandas.select, Pandas.isin. apply list_filter_iff. intros s.
  destruct (status s) as [st|]; [|split; [done|by intros [|]]].
  rewrite bool_decide_eq_true, !elem_of_cons, elem_of_nil.
  split; [intros [->|[->|[]]]; eauto|intros [[= ->]|[= ->]]; eauto].
Qed.

(** X15. The two counts of the KPI row add up to the number of shipments kept
    for the grouped table (those whose status is Missing or Damaged), which is
    at most the number of filtered shipments; the Missing count is the number
    of entries "Missing" in the status list given to the pie chart. *)
Theorem kpi_counts (filtered : list Shipment) :
  total_missing filtered + damaged_count filtered = length (incidents_only filtered)
  ∧ total_missing filtered + damaged_count filtered ≤ length filtered
  ∧ total_missing filtered
    = length (filter (λ c, c = Some "Missing") (status <$> filtered)).
Proof.
  assert (total_missing filtered + damaged_count filtered
          = length (incidents_only filtered)) as Hsum.
  { unfold total_missing, damaged_count.
    rewrite !with_status_filter, incidents_only_filter.
    apply length_filter_disjoint. intros s Hm Hd. congruence. }
  split; [done|]. split.
  - rewrite Hsum. apply length_filter.
  - clear Hsum. unfold total_missing. rewrite with_status_filter.
    induction filtered as [|s l IH]; [done|].
    rewrite fmap_cons, !filter_cons.
    repeat case_decide; simpl; try done; by rewrite IH.
Qed.
